(** * HaveIRidden: the rolling-stock classifier, the ride ledger and the
      dataset store of the NYC subway tracker

    A shallow embedding of the logic in [src/App.jsx] and of the two-page
    variant of the application: [detectModelFromNumber], the cookie ledger
    ([readRidesFromCookie], [writeRidesToCookie], [useCookieRides]), the
    dataset store ([loadDatasets], [saveDatasets], [prefillDatasets],
    [getDatasets]), the handlers of the Stats page ([handleDetect],
    [importRides], [deleteRide], the edits of the tables) and the lists that
    the pages show ([RecentRidesMini], [RideManager], [RideTable]).

    Conventions.
    - Strings are Stdlib strings, read as the UTF-8 bytes of the JavaScript
      string.  The code only compares, splits and concatenates on ASCII
      characters, which is byte-exact under this reading.
    - Numbers are [NaN], an infinity or an integer.  [parseInt] returns the
      double nearest to the digits it reads ([to_double]): the integer itself
      below 2^53, a rounded one from there on.  The two zeros of a double are
      not told apart: the code compares numbers and prints them, and does
      neither differently for [-0].
    - A thrown exception is a value of [result]; [try_catch] is the
      [try { } catch { }] statement.
    - A state update is followed by a render of the component that holds
      the state.  Its effects run when that render returns; when the render
      throws, no effect runs and React takes the page down. *)

From Stdlib Require Import ZArith List String Ascii Bool Lia Permutation.
From Stdlib Require DecimalString DecimalPos.
Import ListNotations.

Local Open Scope string_scope.
Local Open Scope Z_scope.

(* ================================================================== *)
(** * Strings: the built-in operations the code calls                  *)
(* ================================================================== *)

Definition byte_of (c : ascii) : Z := Z.of_N (N_of_ascii c).

(** One-byte white space: TAB, LF, VT, FF, CR, SP. *)
Definition ws1 (a : ascii) : bool :=
  let n := byte_of a in ((9 <=? n) && (n <=? 13)) || (n =? 32).

(** Two-byte white space: U+00A0. *)
Definition ws2 (a b : ascii) : bool :=
  (byte_of a =? 194) && (byte_of b =? 160).

(** Three-byte white space: U+1680, U+2000..U+200A, U+2028, U+2029, U+202F,
    U+205F, U+3000, U+FEFF. *)
Definition ws3 (a b c : ascii) : bool :=
  let x := byte_of a in let y := byte_of b in let z := byte_of c in
  ((x =? 225) && (y =? 154) && (z =? 128))
  || ((x =? 226) && (y =? 128)
      && (((128 <=? z) && (z <=? 138)) || (z =? 168) || (z =? 169) || (z =? 175)))
  || ((x =? 226) && (y =? 129) && (z =? 159))
  || ((x =? 227) && (y =? 128) && (z =? 128))
  || ((x =? 239) && (y =? 187) && (z =? 191)).

(** [s.trimStart()], also the first step of [parseInt]. *)
Fixpoint trimStart (s : string) : string :=
  match s with
  | EmptyString => s
  | String a r1 =>
      if ws1 a then trimStart r1 else
      match r1 with
      | EmptyString => s
      | String b r2 =>
          if ws2 a b then trimStart r2 else
          match r2 with
          | EmptyString => s
          | String c r3 => if ws3 a b c then trimStart r3 else s
          end
      end
  end.

Fixpoint rev_onto (s acc : string) : string :=
  match s with
  | EmptyString => acc
  | String a r => rev_onto r (String a acc)
  end.

Definition reverse (s : string) : string := rev_onto s EmptyString.

(** White space read from the end of the string: the bytes of a character
    arrive last byte first. *)
Fixpoint trimStart_rev (s : string) : string :=
  match s with
  | EmptyString => s
  | String c r1 =>
      if ws1 c then trimStart_rev r1 else
      match r1 with
      | EmptyString => s
      | String b r2 =>
          if ws2 b c then trimStart_rev r2 else
          match r2 with
          | EmptyString => s
          | String a r3 => if ws3 a b c then trimStart_rev r3 else s
          end
      end
  end.

Definition trimEnd (s : string) : string := reverse (trimStart_rev (reverse s)).

(** [s.trim()] *)
Definition trim (s : string) : string := trimEnd (trimStart s).

(** [s.split(sep)] for a one-character separator.  The result is never
    empty: [split sep ""] is [[""]]. *)
Fixpoint split (sep : ascii) (s : string) : list string :=
  match s with
  | EmptyString => [EmptyString]
  | String a r =>
      if Ascii.eqb a sep then EmptyString :: split sep r
      else match split sep r with
           | [] => [String a EmptyString]
           | h :: t => String a h :: t
           end
  end.

Fixpoint string_forall (p : ascii -> bool) (s : string) : bool :=
  match s with
  | EmptyString => true
  | String a r => p a && string_forall p r
  end.

(** An ASCII character that is not white space. *)
Definition plain (c : ascii) : bool :=
  (byte_of c <? 128) && negb (ws1 c).

(** [s.startsWith(p)] *)
Definition startsWith (s p : string) : bool := String.prefix p s.

(* ================================================================== *)
(** * Numbers and [parseInt(s, 10)]                                    *)
(* ================================================================== *)

Inductive number : Type :=
| NaN
| Int (z : Z)
| Infinity (negative : bool).

Definition isNaN (n : number) : bool :=
  match n with NaN => true | _ => false end.

(** [a <= b], [a >= b] and [a < b]: false as soon as one side is NaN. *)
Definition num_le (a b : number) : bool :=
  match a, b with
  | NaN, _ | _, NaN => false
  | Int x, Int y => x <=? y
  | Infinity true, _ => true
  | _, Infinity false => true
  | _, _ => false
  end.

Definition num_ge (a b : number) : bool :=
  match a, b with
  | NaN, _ | _, NaN => false
  | Int x, Int y => y <=? x
  | Infinity false, _ => true
  | _, Infinity true => true
  | _, _ => false
  end.

Definition num_lt (a b : number) : bool :=
  match a, b with
  | NaN, _ | _, NaN => false
  | Int x, Int y => x <? y
  | Infinity true, Infinity true => false
  | Infinity false, Infinity false => false
  | Infinity true, _ => true
  | _, Infinity false => true
  | _, _ => false
  end.

(** The Number for an integer: the nearest double, a tie going to the even
    significand.  A double has 53 significant bits, so an integer of
    magnitude below 2^53 is itself; a larger one is rounded to a multiple of
    the power of two that its 53 leading bits leave, and becomes an infinity
    when that reaches 2^1024. *)
Definition to_double (z : Z) : number :=
  let a := Z.abs z in
  if a <? 2 ^ 53 then Int z else
  let ulp := 2 ^ (Z.log2 a - 52) in
  let q := a / ulp in
  let r := a mod ulp in
  let up := (ulp <? 2 * r) || ((2 * r =? ulp) && Z.odd q) in
  let m := (if up then q + 1 else q) * ulp in
  if 2 ^ 1024 <=? m then Infinity (z <? 0) else Int (Z.sgn z * m).

Definition digit_of (c : ascii) : option Z :=
  let n := byte_of c in
  if (48 <=? n) && (n <=? 57) then Some (n - 48) else None.

(** The value of the longest prefix of decimal digits, most significant
    digit first. *)
Fixpoint digits_value (acc : Z) (s : string) : Z :=
  match s with
  | EmptyString => acc
  | String c r =>
      match digit_of c with
      | Some d => digits_value (10 * acc + d) r
      | None => acc
      end
  end.

Definition is_digit (c : ascii) : bool :=
  match digit_of c with Some _ => true | None => false end.

(** Some character of the string is a decimal digit. *)
Fixpoint has_digit (s : string) : bool :=
  match s with
  | EmptyString => false
  | String c r => is_digit c || has_digit r
  end.

(** [parseInt(s, 10)]: skip leading white space, read an optional sign,
    then the longest run of digits; NaN when that run is empty, and
    otherwise the double for the signed value of the run.  Whatever follows
    the digits is ignored. *)
Definition parseInt (s : string) : number :=
  let t := trimStart s in
  let '(sign, body) :=
    match t with
    | String "-" r => (-1, r)
    | String "+" r => (1, r)
    | _ => (1, t)
    end in
  match body with
  | EmptyString => NaN
  | String c _ =>
      match digit_of c with
      | Some _ => to_double (sign * digits_value 0 body)
      | None => NaN
      end
  end.

(* ================================================================== *)
(** * The classifier                                                   *)
(* ================================================================== *)

(** A range is the two-element array [[lo, hi]]. *)
Definition range : Type := (number * number)%type.

Record RollingStockEntry : Type := mkStock {
  model : string;
  ranges : list range;
  division : string
}.

(** The object [{ model, division }] that a match returns. *)
Record Detected : Type := mkDetected {
  det_model : string;
  det_division : string
}.

Definition detected_of (entry : RollingStockEntry) : Detected :=
  mkDetected (model entry) (division entry).

(** The inner loop: [for (const [lo, hi] of entry.ranges)], leaving at the
    first range with [n >= lo && n <= hi]. *)
Fixpoint scan_ranges (n : number) (rs : list range) : bool :=
  match rs with
  | [] => false
  | (lo, hi) :: rs' =>
      if num_ge n lo && num_le n hi then true else scan_ranges n rs'
  end.

(** The outer loop: [for (const entry of rollingStock)]. *)
Fixpoint scan_entries (n : number) (rollingStock : list RollingStockEntry)
  : option Detected :=
  match rollingStock with
  | [] => None
  | entry :: rest =>
      if scan_ranges n (ranges entry) then Some (detected_of entry)
      else scan_entries n rest
  end.

Definition detectModelFromNumber (numStr : string)
  (rollingStock : list RollingStockEntry) : option Detected :=
  let n := parseInt numStr in
  if isNaN n then None else scan_entries n rollingStock.

(** ** What the specification says a classification is *)

(** [contains n r]: the range [r] holds [n], both ends included. *)
Definition contains (n : number) (r : range) : bool :=
  let '(lo, hi) := r in num_le lo n && num_le n hi.

Definition entry_contains (n : number) (e : RollingStockEntry) : bool :=
  existsb (contains n) (ranges e).

(** The model and division of the first entry, in table order, one of whose
    ranges contains [n]; nothing when no entry has such a range. *)
Inductive FirstMatch (n : number) (T : list RollingStockEntry)
  : option Detected -> Prop :=
| FirstMatch_none :
    Forall (fun e => Forall (fun r => contains n r = false) (ranges e)) T ->
    FirstMatch n T None
| FirstMatch_hit : forall before e after,
    T = (before ++ e :: after)%list ->
    Forall (fun e' => Forall (fun r => contains n r = false) (ranges e')) before ->
    Exists (fun r => contains n r = true) (ranges e) ->
    FirstMatch n T (Some (mkDetected (model e) (division e))).

(** Two ranges share a number. *)
Definition ranges_overlap (r1 r2 : range) : bool :=
  let '(lo1, hi1) := r1 in
  let '(lo2, hi2) := r2 in
  num_le lo1 hi1 && num_le lo2 hi2 && num_le lo1 hi2 && num_le lo2 hi1.

(** All ranges of the table, across all entries, are pairwise disjoint. *)
Definition disjoint_table (T : list RollingStockEntry) : Prop :=
  ForallOrdPairs (fun r1 r2 => ranges_overlap r1 r2 = false)
    (flat_map ranges T).

(** A range whose low end lies above its high end. *)
Definition inverted (r : range) : bool :=
  let '(lo, hi) := r in num_lt hi lo.

Definition drop_inverted (e : RollingStockEntry) : RollingStockEntry :=
  mkStock (model e) (filter (fun r => negb (inverted r)) (ranges e)) (division e).

(* ================================================================== *)
(** * Exceptions                                                       *)
(* ================================================================== *)

Inductive exn : Type :=
| SyntaxError (message : string)
| URIError (message : string)
| TypeError (message : string)
| DOMException (name message : string)
| Error (message : string).

(** [err.message] *)
Definition exn_message (e : exn) : string :=
  match e with
  | SyntaxError m | URIError m | TypeError m | DOMException _ m | Error m => m
  end.

Inductive result (A : Type) : Type :=
| Ok (a : A)
| Throw (e : exn).

Arguments Ok {A} a.
Arguments Throw {A} e.

Definition bind {A B} (c : result A) (k : A -> result B) : result B :=
  match c with
  | Ok a => k a
  | Throw e => Throw e
  end.

(** [try { body } catch (err) { handler }] *)
Definition try_catch {A} (body : result A) (handler : exn -> result A)
  : result A :=
  match body with
  | Ok a => Ok a
  | Throw e => handler e
  end.

Notation "x <- c ;; k" := (bind c (fun x => k))
  (at level 61, c at next level, right associativity).

(* ================================================================== *)
(** * JSON values, ride records and datasets                           *)
(* ================================================================== *)

Unset Elimination Schemes.
Inductive json : Type :=
| JNull
| JBool (b : bool)
| JNum (z : Z)
| JStr (s : string)
| JArr (items : list json)
| JObj (fields : list (string * json)).
Set Elimination Schemes.

(** [Array.isArray(v)] *)
Definition isArray (v : json) : bool :=
  match v with JArr _ => true | _ => false end.

(** What [if (v)] and [v || w] see. *)
Definition truthy (v : json) : bool :=
  match v with
  | JNull => false
  | JBool b => b
  | JNum z => negb (z =? 0)
  | JStr s => negb (s =? "")%string
  | JArr _ | JObj _ => true
  end.

Fixpoint get_field (k : string) (fields : list (string * json)) : option json :=
  match fields with
  | [] => None
  | (k', v) :: rest => if (k' =? k)%string then Some v else get_field k rest
  end.

(** The ride object that [handleDetect] builds. *)
Record RideRecord : Type := mkRide {
  ride_id : string;
  ride_trainNumber : string;
  ride_line : string;
  ride_lineColor : string;
  ride_model : string;
  ride_division : string;
  ride_timestamp : string
}.

Definition ride_json (r : RideRecord) : json :=
  JObj [("id", JStr (ride_id r));
        ("trainNumber", JStr (ride_trainNumber r));
        ("line", JStr (ride_line r));
        ("lineColor", JStr (ride_lineColor r));
        ("model", JStr (ride_model r));
        ("division", JStr (ride_division r));
        ("timestamp", JStr (ride_timestamp r))].

Record LineEntry : Type := mkLine {
  line_id : string;
  line_label : string;
  line_division : string;
  line_color : string;
  line_terminals : string * string
}.

Record Snapshot : Type := mkSnapshot {
  rollingStock : list RollingStockEntry;
  lines : list LineEntry
}.

(** A number as [JSON.stringify] writes it: NaN and the infinities become
    [null]. *)
Definition number_json (n : number) : json :=
  match n with Int z => JNum z | NaN | Infinity _ => JNull end.

Definition stock_json (s : RollingStockEntry) : json :=
  JObj [("model", JStr (model s));
        ("ranges",
         JArr (map (fun r : range => JArr [number_json (fst r); number_json (snd r)])
                 (ranges s)));
        ("division", JStr (division s))].

Definition line_json (l : LineEntry) : json :=
  JObj [("id", JStr (line_id l));
        ("label", JStr (line_label l));
        ("division", JStr (line_division l));
        ("color", JStr (line_color l));
        ("terminals",
         JArr [JStr (fst (line_terminals l)); JStr (snd (line_terminals l))])].

Definition snapshot_json (ds : Snapshot) : json :=
  JObj [("rollingStock", JArr (map stock_json (rollingStock ds)));
        ("lines", JArr (map line_json (lines ds)))].

Definition rng (lo hi : Z) : range := (Int lo, Int hi).

(** The literal of [prefillDatasets]. *)
Definition seed_datasets : Snapshot :=
  mkSnapshot
    [ mkStock "R62" [rng 1301 1390; rng 1601 1625] "A";
      mkStock "R62A" [rng 1651 2150] "A";
      mkStock "R142" [rng 6301 6899] "A";
      mkStock "R142A" [rng 7211 7590] "A";
      mkStock "R188" [rng 7811 7936] "A";
      mkStock "R68" [rng 2500 2790] "B";
      mkStock "R68A" [rng 5001 5296] "B";
      mkStock "R160A" [rng 8313 8652] "B";
      mkStock "R160B" [rng 8713 9942] "B";
      mkStock "R179" [rng 3010 3327] "B";
      mkStock "R211A" [rng 4000 4399] "B";
      mkStock "R211S (Staten Island)" [rng 100 199] "SIR" ]
    [ mkLine "1" "1" "A" "#EE352E" ("Van Cortlandt Park–242 St", "South Ferry");
      mkLine "2" "2" "A" "#EE352E" ("Wakefield–241 St", "Flatbush Av–Bklyn College");
      mkLine "3" "3" "A" "#EE352E" ("Harlem–148 St", "New Lots Av");
      mkLine "4" "4" "A" "#00933C" ("Woodlawn", "Crown Hts–Utica Av / New Lots Av");
      mkLine "5" "5" "A" "#00933C"
        ("Eastchester–Dyre Av / Nereid Av", "Flatbush Av / Bowling Green");
      mkLine "6" "6" "A" "#00933C"
        ("Pelham Bay Park", "Brooklyn Bridge–City Hall / Parkchester");
      mkLine "7" "7" "A" "#B933AD" ("Flushing–Main St", "34 St–Hudson Yards");
      mkLine "S" "S" "A" "#808183" ("Times Sq–42 St", "Grand Central–42 St");
      mkLine "A" "A" "B" "#2850AD"
        ("Inwood–207 St", "Far Rockaway–Mott Ave / Lefferts Blvd / Rockaway Park");
      mkLine "B" "B" "B" "#FF6319" ("Bedford Park Blvd", "Brighton Beach");
      mkLine "C" "C" "B" "#2850AD" ("168 St", "Euclid Av");
      mkLine "D" "D" "B" "#FF6319" ("Norwood–205 St", "Coney Island–Stillwell Av");
      mkLine "E" "E" "B" "#2850AD"
        ("Jamaica Center–Parsons/Archer", "World Trade Center");
      mkLine "F" "F" "B" "#FF6319"
        ("Jamaica–179 St / 21 St–Queensbridge", "Coney Island–Stillwell Av");
      mkLine "G" "G" "B" "#6CBE45" ("Court Sq", "Church Av");
      mkLine "J" "J" "B" "#996633" ("Jamaica Center–Parsons/Archer", "Broad St");
      mkLine "Z" "Z" "B" "#996633" ("Jamaica Center–Parsons/Archer", "Broad St");
      mkLine "L" "L" "B" "#A7A9AC" ("8 Av", "Canarsie–Rockaway Pkwy");
      mkLine "M" "M" "B" "#FF6319"
        ("Forest Hills–71 Av / Middle Village–Metropolitan Av",
         "Delancey–Essex / 96 St (rush)");
      mkLine "N" "N" "B" "#FCCC0A" ("Astoria–Ditmars Blvd", "Coney Island–Stillwell Av");
      mkLine "Q" "Q" "B" "#FCCC0A" ("96 St", "Coney Island–Stillwell Av");
      mkLine "R" "R" "B" "#FCCC0A" ("Forest Hills–71 Av", "Bay Ridge–95 St");
      mkLine "W" "W" "B" "#FCCC0A"
        ("Astoria–Ditmars Blvd", "Whitehall St–South Ferry");
      mkLine "SIR" "SIR" "SIR" "#0039A6" ("St George", "Tottenville") ].

(* ================================================================== *)
(** * The browser: [document.cookie] and [localStorage]                *)
(* ================================================================== *)

(** ** Cookies

    The jar holds the cookies that the document sees, as name and value, in
    the order in which [document.cookie] lists them.  Reading gives
    [name=value] joined by [; ].  Assigning a string stores the pair that
    its first [;]-separated part names; of the attributes only [Max-Age] is
    interpreted (a value of zero or less removes the cookie).  A pair longer
    than 4096 bytes is dropped without an error.  With [cookie_access] off,
    reading and assigning both throw. *)

Definition cookie : Type := (string * string)%type.

Record Document : Type := mkDocument {
  jar : list cookie;
  cookie_access : bool
}.

Definition serialize (c : cookie) : string :=
  if (fst c =? "")%string then snd c else fst c ++ "=" ++ snd c.

Definition cookie_string (cookies : list cookie) : string :=
  String.concat "; " (map serialize cookies).

Definition security_error : exn :=
  DOMException "SecurityError" "The operation is insecure.".

(** reading [document.cookie] *)
Definition get_cookie (d : Document) : result string :=
  if cookie_access d then Ok (cookie_string (jar d)) else Throw security_error.

Definition is_wsp (c : ascii) : bool :=
  (byte_of c =? 32) || (byte_of c =? 9).

Fixpoint strip_wsp_start (s : string) : string :=
  match s with
  | EmptyString => s
  | String a r => if is_wsp a then strip_wsp_start r else s
  end.

Definition strip_wsp (s : string) : string :=
  reverse (strip_wsp_start (reverse (strip_wsp_start s))).

(** The text before and the text after the first occurrence of [sep]. *)
Fixpoint cut (sep : ascii) (s : string) : option (string * string) :=
  match s with
  | EmptyString => None
  | String a r =>
      if Ascii.eqb a sep then Some (EmptyString, r)
      else match cut sep r with
           | Some (x, y) => Some (String a x, y)
           | None => None
           end
  end.

Definition name_value (part : string) : string * string :=
  match cut "=" part with
  | Some (n, v) => (strip_wsp n, strip_wsp v)
  | None => (EmptyString, strip_wsp part)
  end.

Definition lower (c : ascii) : ascii :=
  let n := byte_of c in
  if (65 <=? n) && (n <=? 90) then ascii_of_N (Z.to_N (n + 32)) else c.

Fixpoint lowercase (s : string) : string :=
  match s with
  | EmptyString => EmptyString
  | String a r => String (lower a) (lowercase r)
  end.

Fixpoint all_digits (s : string) : bool :=
  match s with
  | EmptyString => true
  | String c r => is_digit c && all_digits r
  end.

(** The number of a [Max-Age] value: an optional minus sign and digits. *)
Definition delta_seconds (v : string) : option Z :=
  match v with
  | EmptyString => None
  | String "-" r => if all_digits r then Some (- digits_value 0 r) else None
  | String c _ =>
      if is_digit c && all_digits v then Some (digits_value 0 v) else None
  end.

(** The value of the last well-formed [Max-Age] attribute. *)
Fixpoint max_age_of (attrs : list string) : option Z :=
  match attrs with
  | [] => None
  | a :: rest =>
      match max_age_of rest with
      | Some d => Some d
      | None =>
          let '(n, v) := name_value a in
          if (lowercase n =? "max-age")%string then delta_seconds v else None
      end
  end.

Fixpoint remove_cookie (n : string) (cookies : list cookie) : list cookie :=
  match cookies with
  | [] => []
  | c :: rest =>
      if (fst c =? n)%string then remove_cookie n rest
      else c :: remove_cookie n rest
  end.

(** Replace the value of the cookie named [n] where it stands, or add the
    cookie at the end. *)
Fixpoint upsert_cookie (n v : string) (cookies : list cookie) : list cookie :=
  match cookies with
  | [] => [(n, v)]
  | c :: rest =>
      if (fst c =? n)%string then (n, v) :: rest
      else c :: upsert_cookie n v rest
  end.

Fixpoint lookup_cookie (n : string) (cookies : list cookie) : option string :=
  match cookies with
  | [] => None
  | c :: rest =>
      if (fst c =? n)%string then Some (snd c) else lookup_cookie n rest
  end.

Definition cookie_limit : nat := 4096.

Definition store_cookie (s : string) (cookies : list cookie) : list cookie :=
  match split ";" s with
  | [] => cookies
  | part :: attrs =>
      let '(n, v) := name_value part in
      if (cookie_limit <? String.length n + String.length v)%nat then cookies
      else if ((n =? "") && (v =? ""))%string then cookies
      else match max_age_of attrs with
           | Some d => if d <=? 0 then remove_cookie n cookies
                       else upsert_cookie n v cookies
           | None => upsert_cookie n v cookies
           end
  end.

(** [document.cookie = s] *)
Definition set_cookie (s : string) (d : Document) : result Document :=
  if cookie_access d
  then Ok (mkDocument (store_cookie s (jar d)) true)
  else Throw security_error.

(** ** Local storage

    [items] are the stored keys and values.  With [storage_access] off every
    call throws a SecurityError; [setItem] throws a QuotaExceededError when
    the stored bytes would pass [quota]. *)

Record LocalStorage : Type := mkStorage {
  items : list (string * string);
  storage_access : bool;
  quota : nat
}.

Definition quota_exceeded : exn :=
  DOMException "QuotaExceededError" "The quota has been exceeded.".

Fixpoint usage (kvs : list (string * string)) : nat :=
  match kvs with
  | [] => 0%nat
  | (k, v) :: rest => (String.length k + String.length v + usage rest)%nat
  end.

(** [localStorage.getItem(key)]; [None] is [null]. *)
Definition getItem (key : string) (ls : LocalStorage) : result (option string) :=
  if storage_access ls then Ok (lookup_cookie key (items ls))
  else Throw security_error.

(** [localStorage.setItem(key, value)] *)
Definition setItem (key value : string) (ls : LocalStorage)
  : result LocalStorage :=
  if storage_access ls then
    let items' := upsert_cookie key value (items ls) in
    if (quota ls <? usage items')%nat then Throw quota_exceeded
    else Ok (mkStorage items' true (quota ls))
  else Throw security_error.

(** Storage that refuses every call, and storage that is full. *)
Definition storage_disabled : LocalStorage := mkStorage [] false 0.
Definition storage_full : LocalStorage := mkStorage [] true 0.

(** ** [String(n)]

    A number is printed with the fewest significant digits that read back
    as the same double: all the digits of an integer below 2^53, rounded
    digits followed by zeros from there on ([String(2 ** 64)] is
    [18446744073709552000]), and exponent notation from 10^21 on
    ([String(1e21)] is [1e+21]). *)

(** The decimal digits of an integer, with its sign. *)
Definition decimal (z : Z) : string :=
  DecimalString.NilZero.string_of_int (Z.to_int z).

(** The double for [m] is the integer [v]. *)
Definition rounds_to (m v : Z) : bool :=
  match to_double m with
  | Int x => x =? v
  | _ => false
  end.

(** The integer with the fewest significant digits that reads as the double
    [v], for [v] at least 1: with [k] digits and then more, the multiples
    of [10 ^ (n - k)] on both sides of [v] are tried, [n] being the number
    of digits of [v]; when both read as [v] the nearer one is taken.
    Seventeen digits always do. *)
Fixpoint shortest (fuel : nat) (k n v : Z) : Z :=
  match fuel with
  | O => v
  | S fuel' =>
      let p := 10 ^ (n - k) in
      let lo := v / p * p in
      let hi := lo + p in
      match rounds_to lo v, rounds_to hi v with
      | true, true => if v - lo <=? hi - v then lo else hi
      | true, false => lo
      | false, true => hi
      | false, false => shortest fuel' (k + 1) n v
      end
  end.

Definition shortest_digits (v : Z) : Z :=
  shortest 17 1 (Z.of_nat (String.length (decimal v))) v.

Fixpoint drop_zeros (s : string) : string :=
  match s with
  | EmptyString => s
  | String c r => if Ascii.eqb c "0" then drop_zeros r else s
  end.

(** [d.ddd] followed by [e+] and the exponent. *)
Definition exponent_form (m : Z) : string :=
  let e := Z.of_nat (String.length (decimal m)) - 1 in
  match reverse (drop_zeros (reverse (decimal m))) with
  | EmptyString => EmptyString
  | String d EmptyString => String d ("e+" ++ decimal e)
  | String d rest => String d ("." ++ rest ++ "e+" ++ decimal e)
  end.

(** [String(n)], also what a template literal and an input box make of a
    number; [Int z] stands for the double whose value is [z]. *)
Definition to_string (n : number) : string :=
  match n with
  | NaN => "NaN"
  | Infinity negative => if negative then "-Infinity" else "Infinity"
  | Int z =>
      if z =? 0 then "0" else
      let m := shortest_digits (Z.abs z) in
      (if z <? 0 then "-" else "")
      ++ (if m <? 10 ^ 21 then decimal m else exponent_form m)
  end.

(* ================================================================== *)
(** * The heap: dataset snapshots as shared objects                    *)
(* ================================================================== *)

(** The Stats page keeps the snapshot in React state as a reference to an
    object whose [rollingStock] and [lines] are arrays of references to
    entry objects.  The heap records which objects two snapshots share.
    A location is an index into the heap; allocation appends. *)

Definition loc : Type := nat.

Inductive value : Type :=
| VUndef
| VNum (n : number)
| VStr (s : string)
| VRef (l : loc).

Inductive cell : Type :=
| CObject (props : list (string * value))
| CArray (elems : list value).

Definition heap : Type := list cell.

Definition H (A : Type) : Type := heap -> result (A * heap).

Definition hret {A} (a : A) : H A := fun h => Ok (a, h).

Definition hbind {A B} (c : H A) (k : A -> H B) : H B :=
  fun h => match c h with
           | Ok (a, h') => k a h'
           | Throw e => Throw e
           end.

Notation "'let*' x ':=' c 'in' k" := (hbind c (fun x => k))
  (at level 10, x name, c at level 100, k at level 200).

Definition alloc (c : cell) : H value :=
  fun h => Ok (VRef (List.length h), (h ++ [c])%list).

Fixpoint update_nth {A} (i : nat) (x : A) (l : list A) : list A :=
  match l, i with
  | [], _ => []
  | _ :: rest, O => x :: rest
  | y :: rest, S j => y :: update_nth j x rest
  end.

Definition type_error (what : string) : exn :=
  TypeError ("Cannot read properties of undefined (" ++ what ++ ")").

Fixpoint get_assoc (k : string) (props : list (string * value)) : value :=
  match props with
  | [] => VUndef
  | (k', v) :: rest => if (k' =? k)%string then v else get_assoc k rest
  end.

(** Define or overwrite the property [k], keeping its place when it is there. *)
Fixpoint set_assoc (k : string) (x : value) (props : list (string * value))
  : list (string * value) :=
  match props with
  | [] => [(k, x)]
  | (k', v) :: rest =>
      if (k' =? k)%string then (k, x) :: rest else (k', v) :: set_assoc k x rest
  end.

(** [v.k] *)
Definition get_prop (k : string) (v : value) : H value :=
  fun h =>
    match v with
    | VUndef => Throw (type_error k)
    | VRef l =>
        match nth_error h l with
        | Some (CObject props) => Ok (get_assoc k props, h)
        | _ => Ok (VUndef, h)
        end
    | _ => Ok (VUndef, h)
    end.

(** [v[i]] *)
Definition index (i : nat) (v : value) : H value :=
  fun h =>
    match v with
    | VUndef => Throw (type_error "index")
    | VRef l =>
        match nth_error h l with
        | Some (CArray elems) => Ok (nth i elems VUndef, h)
        | _ => Ok (VUndef, h)
        end
    | _ => Ok (VUndef, h)
    end.

(** The elements of an array, for [map], [filter] and [[...v]]. *)
Definition elems_of (v : value) : H (list value) :=
  fun h =>
    match v with
    | VRef l =>
        match nth_error h l with
        | Some (CArray elems) => Ok (elems, h)
        | _ => Throw (TypeError "not an array")
        end
    | _ => Throw (TypeError "not an array")
    end.

(** The own properties of an object, for [{...v}]; nothing for a value that
    is not an object. *)
Definition props_of (v : value) : H (list (string * value)) :=
  fun h =>
    match v with
    | VRef l =>
        match nth_error h l with
        | Some (CObject props) => Ok (props, h)
        | _ => Ok ([], h)
        end
    | _ => Ok ([], h)
    end.

(** [o.k = x]: the object that [o] refers to is changed in place. *)
Definition put_prop (o : value) (k : string) (x : value) : H unit :=
  fun h =>
    match o with
    | VUndef => Throw (type_error k)
    | VRef l =>
        match nth_error h l with
        | Some (CObject props) =>
            Ok (tt, update_nth l (CObject (set_assoc k x props)) h)
        | _ => Ok (tt, h)
        end
    | _ => Ok (tt, h)
    end.

(** [{ ...v }] *)
Definition copy_object (v : value) : H value :=
  let* props := props_of v in alloc (CObject props).

(** [{ ...v, [k]: x }] *)
Definition spread_with (v : value) (k : string) (x : value) : H value :=
  let* props := props_of v in alloc (CObject (set_assoc k x props)).

(** [arr.map((x, i) => f)] with a callback that may allocate. *)
Fixpoint mapi_H {A B} (f : nat -> A -> H B) (i : nat) (l : list A)
  : H (list B) :=
  match l with
  | [] => hret []
  | x :: rest =>
      let* y := f i x in
      let* ys := mapi_H f (S i) rest in
      hret (y :: ys)
  end.

(** [arr.filter((_, i) => keep i)] *)
Fixpoint filteri {A} (keep : nat -> bool) (i : nat) (l : list A) : list A :=
  match l with
  | [] => []
  | x :: rest =>
      if keep i then x :: filteri keep (S i) rest else filteri keep (S i) rest
  end.

(** ** The edit handlers of the Stats page

    Each takes the snapshot reference [datasets] held in React state and
    returns the reference given to [setDatasets]. *)

Definition addStock (datasets : value) : H value :=
  let* stock := get_prop "rollingStock" datasets in
  let* olds := elems_of stock in
  let* pair := alloc (CArray [VNum (Int 0); VNum (Int 0)]) in
  let* rs := alloc (CArray [pair]) in
  let* entry := alloc (CObject [("model", VStr "New Model");
                                ("ranges", rs);
                                ("division", VStr "A")]) in
  let* arr := alloc (CArray (olds ++ [entry])) in
  spread_with datasets "rollingStock" arr.

Definition addLine (datasets : value) : H value :=
  let* ls := get_prop "lines" datasets in
  let* olds := elems_of ls in
  let* terminals := alloc (CArray [VStr "Terminus A"; VStr "Terminus B"]) in
  let* entry := alloc (CObject [("id", VStr "X");
                                ("label", VStr "X");
                                ("division", VStr "B");
                                ("color", VStr "#000000");
                                ("terminals", terminals)]) in
  let* arr := alloc (CArray (olds ++ [entry])) in
  spread_with datasets "lines" arr.

Definition updateStock (idx : nat) (field : string) (x : value)
  (datasets : value) : H value :=
  let* next := copy_object datasets in
  let* stock := get_prop "rollingStock" datasets in
  let* olds := elems_of stock in
  let* news := mapi_H (fun i s => if Nat.eqb i idx then spread_with s field x
                                  else hret s) 0 olds in
  let* arr := alloc (CArray news) in
  let* _ := put_prop next "rollingStock" arr in
  hret next.

Definition updateStockRange (idx rIdx which : nat) (text : string)
  (datasets : value) : H value :=
  let v := VNum (parseInt (if (text =? "")%string then "0" else text)) in
  let* next := copy_object datasets in
  let* stock := get_prop "rollingStock" datasets in
  let* olds := elems_of stock in
  let* news :=
    mapi_H (fun i s =>
      if negb (Nat.eqb i idx) then hret s else
      let* rs := get_prop "ranges" s in
      let* rl := elems_of rs in
      let* rl' :=
        mapi_H (fun j r =>
          if Nat.eqb j rIdx then
            let* lo := (if Nat.eqb which 0 then hret v else index 0 r) in
            let* hi := (if Nat.eqb which 1 then hret v else index 1 r) in
            alloc (CArray [lo; hi])
          else hret r) 0 rl in
      let* ranges' := alloc (CArray rl') in
      spread_with s "ranges" ranges') 0 olds in
  let* arr := alloc (CArray news) in
  let* _ := put_prop next "rollingStock" arr in
  hret next.

Definition addRange (idx : nat) (datasets : value) : H value :=
  let* next := copy_object datasets in
  let* stock := get_prop "rollingStock" next in
  let* entry := index idx stock in
  let* rs := get_prop "ranges" entry in
  let* olds := elems_of rs in
  let* pair := alloc (CArray [VNum (Int 0); VNum (Int 0)]) in
  let* arr := alloc (CArray (olds ++ [pair])) in
  let* _ := put_prop entry "ranges" arr in
  hret next.

Definition removeStock (idx : nat) (datasets : value) : H value :=
  let* next := copy_object datasets in
  let* stock := get_prop "rollingStock" datasets in
  let* olds := elems_of stock in
  let* arr := alloc (CArray (filteri (fun i => negb (Nat.eqb i idx)) 0 olds)) in
  let* _ := put_prop next "rollingStock" arr in
  hret next.

Definition updateLine (idx : nat) (field : string) (x : value)
  (datasets : value) : H value :=
  let* next := copy_object datasets in
  let* ls := get_prop "lines" datasets in
  let* olds := elems_of ls in
  let* news := mapi_H (fun i l => if Nat.eqb i idx then spread_with l field x
                                  else hret l) 0 olds in
  let* arr := alloc (CArray news) in
  let* _ := put_prop next "lines" arr in
  hret next.

Definition removeLine (idx : nat) (datasets : value) : H value :=
  let* next := copy_object datasets in
  let* ls := get_prop "lines" datasets in
  let* olds := elems_of ls in
  let* arr := alloc (CArray (filteri (fun i => negb (Nat.eqb i idx)) 0 olds)) in
  let* _ := put_prop next "lines" arr in
  hret next.

(** ** The structure that a reference stands for *)

Unset Elimination Schemes.
Inductive tree : Type :=
| TUndef
| TNum (n : number)
| TStr (s : string)
| TArr (items : list tree)
| TObj (fields : list (string * tree)).
Set Elimination Schemes.

Fixpoint all_some {A} (l : list (option A)) : option (list A) :=
  match l with
  | [] => Some []
  | None :: _ => None
  | Some x :: rest =>
      match all_some rest with
      | Some xs => Some (x :: xs)
      | None => None
      end
  end.

(** Follow references, at most [fuel] deep. *)
Fixpoint read (fuel : nat) (h : heap) (v : value) : option tree :=
  match v with
  | VUndef => Some TUndef
  | VNum n => Some (TNum n)
  | VStr s => Some (TStr s)
  | VRef l =>
      match fuel with
      | O => None
      | S fuel' =>
          match nth_error h l with
          | None => None
          | Some (CArray elems) =>
              option_map TArr (all_some (map (read fuel' h) elems))
          | Some (CObject props) =>
              option_map TObj
                (all_some (map (fun kv => option_map (pair (fst kv))
                                            (read fuel' h (snd kv))) props))
          end
      end
  end.

(** A one-entry snapshot laid out on the heap:
    [{ rollingStock: [{ model: "R62", ranges: [[1301, 1390]], division: "A" }],
       lines: [] }]. *)
Definition sample_heap : heap :=
  [ CArray [VNum (Int 1301); VNum (Int 1390)];
    CArray [VRef 0%nat];
    CObject [("model", VStr "R62"); ("ranges", VRef 1%nat); ("division", VStr "A")];
    CArray [VRef 2%nat];
    CArray [];
    CObject [("rollingStock", VRef 3%nat); ("lines", VRef 4%nat)] ].

Definition sample_datasets : value := VRef 5%nat.

(** ** Frames *)

(** [h'] is [h] with new objects after it: no object of [h] has changed. *)
Definition extends (h h' : heap) : Prop := exists ext, h' = (h ++ ext)%list.

(** A reference to an object that is not in [h]. *)
Definition fresh (h : heap) (v : value) : Prop :=
  exists l, v = VRef l /\ (List.length h <= l)%nat.

(** Started in a heap that extends [h0], the computation [c] ends, when it
    returns, in a heap that extends [h0], with a result that satisfies [Q]. *)
Definition keeps {A} (h0 : heap) (c : H A) (Q : A -> Prop) : Prop :=
  forall h a h', extends h0 h -> c h = Ok (a, h') -> extends h0 h' /\ Q a.

Definition anything {A} (a : A) : Prop := True.

(** The snapshot of [sample_heap] as a structure, and the same with a range
    [[0, 0]] added to its entry. *)
Definition sample_tree (rs : list tree) : tree :=
  TObj [("rollingStock",
         TArr [TObj [("model", TStr "R62");
                     ("ranges", TArr rs);
                     ("division", TStr "A")]]);
        ("lines", TArr [])].

Definition range_tree (lo hi : Z) : tree := TArr [TNum (Int lo); TNum (Int hi)].

(* ================================================================== *)
(** * The ride ledger and the dataset store                            *)
(* ================================================================== *)

Definition COOKIE_NAME : string := "nyc_subway_rides".
Definition DATA_KEY : string := "nyc_subway_datasets_v1".

(** [60 * 60 * 24 * 400] *)
Definition maxAge : Z := 60 * 60 * 24 * 400.

(** The part of [document.cookie] that [readRidesFromCookie] picks:
    [.split(";").map((c) => c.trim()).find((c) => c.startsWith(...))]. *)
Definition find_rides_cookie (text : string) : option string :=
  find (fun c => startsWith c (COOKIE_NAME ++ "="))
    (map trim (split ";" text)).

(** [match.split("=")[1] || ""] *)
Definition value_part (m : string) : string :=
  nth 1 (split "=" m) EmptyString.

(** The state of a component that calls [useCookieRides], with the browser
    around it: the [rides] of [useState], the document whose cookie the
    effect writes, the messages shown by [alert], the text in the filter box
    of the ride table (the [query] of [RideTable]), and whether the
    component is still on the page: React removes the whole tree when a
    render throws. *)
Record Page : Type := mkPage {
  rides : list json;
  document : Document;
  alerts : list string;
  query : string;
  mounted : bool
}.

Definition alert (message : string) (p : Page) : Page :=
  mkPage (rides p) (document p) (alerts p ++ [message])%list (query p)
    (mounted p).

(** [r.id !== id] for a string [id]. *)
Definition id_differs (id : string) (r : json) : result bool :=
  match r with
  | JNull => Throw (TypeError "Cannot read properties of null (reading 'id')")
  | JObj fields =>
      Ok (match get_field "id" fields with
          | Some (JStr s) => negb (s =? id)%string
          | _ => true
          end)
  | _ => Ok true
  end.

(** [arr.filter(keep)] with a callback that may throw. *)
Fixpoint filter_result {A} (keep : A -> result bool) (l : list A)
  : result (list A) :=
  match l with
  | [] => Ok []
  | x :: rest =>
      b <- keep x ;;
      kept <- filter_result keep rest ;;
      Ok (if b then x :: kept else kept)
  end.

(** [found?.model || "Unknown"] and [found?.division || "?"] *)
Definition or_default (s fallback : string) : string :=
  if (s =? "")%string then fallback else s.

(** The ride that [handleDetect] logs; nothing while the number or the line
    is missing.  [uuid] is [crypto.randomUUID()], [now] is
    [new Date().toISOString()]. *)
Definition handleDetect (trainNumber : string) (selectedLine : option LineEntry)
  (datasets : Snapshot) (uuid now : string) : option RideRecord :=
  if (trainNumber =? "")%string then None else
  match selectedLine with
  | None => None
  | Some l =>
      let found := detectModelFromNumber trainNumber (rollingStock datasets) in
      let model :=
        match found with
        | Some f => or_default (det_model f) "Unknown"
        | None => "Unknown"
        end in
      let division :=
        match found with
        | Some f => or_default (det_division f) "?"
        | None => "?"
        end in
      Some (mkRide uuid (trim trainNumber) (line_id l) (line_color l)
              model division now)
  end.

(** The characters of a string that [encodeURIComponent] returns: letters,
    digits, the marks [- _ . ! ~ * ' ( )] and the [%] of an escape. *)
Definition uri_char (c : ascii) : bool :=
  let n := byte_of c in
  ((65 <=? n) && (n <=? 90)) || ((97 <=? n) && (n <=? 122))
  || ((48 <=? n) && (n <=? 57))
  || (n =? 45) || (n =? 95) || (n =? 46) || (n =? 33) || (n =? 126)
  || (n =? 42) || (n =? 39) || (n =? 40) || (n =? 41) || (n =? 37).

Definition uri_text (s : string) : bool := string_forall uri_char s.

Definition no_semicolon (s : string) : bool :=
  string_forall (fun c => negb (Ascii.eqb c ";")) s.

(** No name and no value in the jar holds a [;]: the browser cuts what it
    stores at the first one. *)
Definition jar_wf (cookies : list cookie) : bool :=
  forallb (fun c => no_semicolon (fst c) && no_semicolon (snd c)) cookies.

(** No cookie under another name reads, once trimmed, as the ledger's. *)
Definition no_shadow (cookies : list cookie) : bool :=
  forallb (fun c => (fst c =? COOKIE_NAME)%string
                    || negb (startsWith (trim (serialize c)) (COOKIE_NAME ++ "=")))
    cookies.

(* ================================================================== *)
(** * The ride table                                                   *)
(* ================================================================== *)

(** [r.k] for a parsed value [r] and one of the keys of a ride. *)
Definition field_of (k : string) (r : json) : result (option json) :=
  match r with
  | JNull =>
      Throw (TypeError ("Cannot read properties of null (reading '" ++ k ++ "')"))
  | JObj fields => Ok (get_field k fields)
  | _ => Ok None
  end.

(** A value that React takes as a child of an element: a string or a
    number, a boolean or [null] (which show nothing), or an array of such.
    For an object React throws. *)
Fixpoint renderable (v : json) : bool :=
  match v with
  | JObj _ => false
  | JArr items => forallb renderable items
  | _ => true
  end.

(** A value that can be turned into a string or a number, as a key, an
    attribute and [new Date(...)] need it: every value but an object with a
    [toString] of its own (which, coming from JSON, is not a function), alone
    or inside an array. *)
Fixpoint coercible (v : json) : bool :=
  match v with
  | JObj fields =>
      match get_field "toString" fields with
      | Some _ => false
      | None => true
      end
  | JArr items => forallb coercible items
  | _ => true
  end.

(** [ok] holds of the field [k]; a missing field is [undefined], which is
    neither shown nor converted. *)
Definition field_passes (ok : json -> bool) (k : string)
  (fields : list (string * json)) : bool :=
  match get_field k fields with
  | Some v => ok v
  | None => true
  end.

(** The row of one ride: [r.id] is its key, [r.timestamp] goes to
    [new Date(...)], [r.lineColor] into the style of the badge, and [r.line],
    [r.trainNumber], [r.model] and [r.division] are children of its cells. *)
Definition row_renders (r : json) : bool :=
  match r with
  | JObj fields =>
      field_passes coercible "id" fields
      && field_passes coercible "timestamp" fields
      && field_passes coercible "lineColor" fields
      && field_passes renderable "line" fields
      && field_passes renderable "trainNumber" fields
      && field_passes renderable "model" fields
      && field_passes renderable "division" fields
  | _ => true
  end.

(** [s.includes(q)] *)
Fixpoint includes (s q : string) : bool :=
  String.prefix q s
  || match s with
     | EmptyString => false
     | String _ r => includes r q
     end.

Section Table.

(** [String.prototype.toLowerCase] stays a parameter. *)
Variable toLowerCase : string -> string.

(** [r.k?.toLowerCase().includes(q)]; [None] is [undefined]. *)
Definition lower_includes (k q : string) (r : json) : result (option bool) :=
  f <- field_of k r ;;
  match f with
  | None | Some JNull => Ok None
  | Some (JStr s) => Ok (Some (includes (toLowerCase s) q))
  | Some _ => Throw (TypeError ("r." ++ k ++ "?.toLowerCase is not a function"))
  end.

Definition is_true (o : option bool) : bool :=
  match o with Some true => true | _ => false end.

(** The callback of the filter of [RideTable]. *)
Definition matches_query (query : string) (r : json) : result bool :=
  let q := toLowerCase query in
  a <- lower_includes "trainNumber" q r ;;
  if is_true a then Ok true else
  b <- lower_includes "model" q r ;;
  if is_true b then Ok true else
  c <- lower_includes "line" q r ;;
  Ok (is_true c).

Definition filtered (query : string) (rides : list json) : result (list json) :=
  filter_result (matches_query query) rides.

(** The render of [RideTable]: the filter runs, then a row is built for
    each ride it kept.  Nothing looks at which exception a render throws. *)
Definition RideTable (query : string) (rides : list json) : result unit :=
  kept <- filtered query rides ;;
  if forallb row_renders kept then Ok tt
  else Throw (Error "Objects are not valid as a React child").

End Table.
(** The built-in functions that the code calls.  The
    development is parametric in them; each theorem states what it needs of
    them. *)
Class Engine : Type := mkEngine {
  JSON_parse : string -> result json;
  JSON_stringify : json -> string;
  encodeURIComponent : string -> result string;
  decodeURIComponent : string -> result string;
  toLowerCase : string -> string
}.

Section Ledger.

Context {engine : Engine}.

Definition readRidesFromCookie (d : Document) : result (list json) :=
  try_catch
    (text <- get_cookie d ;;
     match find_rides_cookie text with
     | None => Ok []
     | Some m =>
         raw <- decodeURIComponent (value_part m) ;;
         arr <- JSON_parse raw ;;
         Ok (match arr with JArr items => items | _ => [] end)
     end)
    (fun _ => Ok []).

Definition writeRidesToCookie (rides : list json) (d : Document)
  : result Document :=
  try_catch
    (value <- encodeURIComponent (JSON_stringify (JArr rides)) ;;
     set_cookie (COOKIE_NAME ++ "=" ++ value
                 ++ "; Max-Age=" ++ to_string (Int maxAge) ++ "; Path=/") d)
    (fun _ => Ok d).

(** What a run of an effect leaves behind. *)
Definition after_effect (r : result Document) (before : Document) : Document :=
  match r with Ok d => d | Throw _ => before end.

(** [useCookieRides] when the component mounts and its first render
    commits: the state starts from the cookie, and the effect writes it
    back. *)
Definition useCookieRides (d : Document) : Page :=
  let initial :=
    match readRidesFromCookie d with Ok l => l | Throw _ => [] end in
  mkPage initial (after_effect (writeRidesToCookie initial d) d) [] "" true.

(** [setRides(next)] and the render that follows, [render] being what the
    component that holds the state computes from the rides when it renders.
    The handler that called [setRides] has returned by then.  When the
    render returns, the state is [next] and the effect of [useCookieRides]
    writes it to the cookie.  When the render throws, no effect runs: the
    cookie stays as it was and React takes the component off the page. *)
Definition setRides (render : list json -> result unit) (next : list json)
  (p : Page) : Page :=
  match render next with
  | Ok _ =>
      mkPage next
        (after_effect (writeRidesToCookie next (document p)) (document p))
        (alerts p) (query p) (mounted p)
  | Throw _ => mkPage next (document p) (alerts p) (query p) false
  end.

(** What [App] computes from its rides when it renders: nothing, it only
    hands [onAddRide] down. *)
Definition App (rides : list json) : result unit := Ok tt.

(** What [StatsPage] computes from its rides when it renders: the ride
    table, with the text of its filter box. *)
Definition StatsPage (query : string) (rides : list json) : result unit :=
  RideTable toLowerCase query rides.

Definition onAddRide (ride : json) (p : Page) : Page :=
  setRides App (rides p ++ [ride])%list p.

(** [confirmed] is the answer to [confirm(...)]. *)
Definition clearRides (confirmed : bool) (p : Page) : Page :=
  if confirmed then setRides (StatsPage (query p)) [] p else p.

Definition deleteRide (id : string) (p : Page) : result Page :=
  kept <- filter_result (id_differs id) (rides p) ;;
  Ok (setRides (StatsPage (query p)) kept p).

(** [importRides], from the moment the file has been read: [file] is the
    text of the chosen file, or nothing when no file was chosen. *)
Definition importRides (file : option string) (p : Page) : result Page :=
  match file with
  | None => Ok p
  | Some text =>
      try_catch
        (parsed <- JSON_parse text ;;
         match parsed with
         | JArr items =>
             Ok (alert "Imported rides into cookie."
                   (setRides (StatsPage (query p)) items p))
         | _ => Throw (Error "Expected an array of rides")
         end)
        (fun err => Ok (alert ("Invalid JSON: " ++ exn_message err) p))
  end.

(** ** The dataset store *)

Definition loadDatasets (ls : LocalStorage) : result json :=
  try_catch
    (raw <- getItem DATA_KEY ls ;;
     match raw with
     | Some text => if (text =? "")%string then Ok JNull else JSON_parse text
     | None => Ok JNull
     end)
    (fun _ => Ok JNull).

Definition saveDatasets (ds : json) (ls : LocalStorage) : result LocalStorage :=
  setItem DATA_KEY (JSON_stringify ds) ls.

Definition prefillDatasets (ls : LocalStorage) : result (json * LocalStorage) :=
  let datasets := snapshot_json seed_datasets in
  ls' <- saveDatasets datasets ls ;;
  Ok (datasets, ls').

(** [loadDatasets() || prefillDatasets()] *)
Definition getDatasets (ls : LocalStorage) : result (json * LocalStorage) :=
  loaded <- loadDatasets ls ;;
  if truthy loaded then Ok (loaded, ls) else prefillDatasets ls.

(** The [save] button: [saveDatasets(datasets)], then the [alert]. *)
Definition save (datasets : json) (ls : LocalStorage)
  : result (LocalStorage * string) :=
  ls' <- saveDatasets datasets ls ;;
  Ok (ls', "Datasets saved to localStorage.").

(** ** The cases in which the ledger has nothing to read *)

Definition matched_cookie (d : Document) : option string :=
  find_rides_cookie (cookie_string (jar d)).

Definition cookie_missing (d : Document) : Prop :=
  matched_cookie d = None.

Definition decode_fails (d : Document) : Prop :=
  exists m e, matched_cookie d = Some m
              /\ decodeURIComponent (value_part m) = Throw e.

Definition parse_fails (d : Document) : Prop :=
  exists m raw e, matched_cookie d = Some m
                  /\ decodeURIComponent (value_part m) = Ok raw
                  /\ JSON_parse raw = Throw e.

Definition not_an_array (d : Document) : Prop :=
  exists m raw v, matched_cookie d = Some m
                  /\ decodeURIComponent (value_part m) = Ok raw
                  /\ JSON_parse raw = Ok v
                  /\ isArray v = false.

End Ledger.

(* ================================================================== *)
(** * More of the pages: what they list                                *)
(* ================================================================== *)

(** The first character of the string is a decimal digit. *)
Definition starts_with_digit (s : string) : bool :=
  match s with
  | EmptyString => false
  | String c _ => is_digit c
  end.

(** The value of a decimal numeral read most significant digit first. *)
Fixpoint uint_value (d : Decimal.uint) (acc : Z) : Z :=
  match d with
  | Decimal.Nil => acc
  | Decimal.D0 l => uint_value l (10 * acc + 0)
  | Decimal.D1 l => uint_value l (10 * acc + 1)
  | Decimal.D2 l => uint_value l (10 * acc + 2)
  | Decimal.D3 l => uint_value l (10 * acc + 3)
  | Decimal.D4 l => uint_value l (10 * acc + 4)
  | Decimal.D5 l => uint_value l (10 * acc + 5)
  | Decimal.D6 l => uint_value l (10 * acc + 6)
  | Decimal.D7 l => uint_value l (10 * acc + 7)
  | Decimal.D8 l => uint_value l (10 * acc + 8)
  | Decimal.D9 l => uint_value l (10 * acc + 9)
  end.

(** The string starts with a white-space character. *)
Definition lead_ws (s : string) : bool :=
  match s with
  | String a r1 =>
      ws1 a
      || match r1 with
         | String b r2 =>
             ws2 a b
             || match r2 with
                | String c _ => ws3 a b c
                | EmptyString => false
                end
         | EmptyString => false
         end
  | EmptyString => false
  end.

(** The first byte of a white-space character. *)
Definition ws_byte (a : ascii) : bool :=
  let n := byte_of a in
  ws1 a || (n =? 194) || (n =? 225) || (n =? 226) || (n =? 227) || (n =? 239).

(** The string is empty or starts with the first byte of white space. *)
Definition ws_led (w : string) : bool :=
  match w with
  | EmptyString => true
  | String a _ => ws_byte a
  end.

(** What [parseInt] makes of the text after the sign. *)
Definition body_value (sign : Z) (body : string) : number :=
  match body with
  | EmptyString => NaN
  | String c _ =>
      match digit_of c with
      | Some _ => to_double (sign * digits_value 0 body)
      | None => NaN
      end
  end.

(** [[...rides].reverse().slice(0, 8)] of [RecentRidesMini]. *)
Definition lastTen {A} (rides : list A) : list A := firstn 8 (rev rides).

(** [arr.map(f)] with a callback that may throw. *)
Fixpoint map_result {A B} (f : A -> result B) (l : list A) : result (list B) :=
  match l with
  | [] => Ok []
  | x :: rest =>
      y <- f x ;;
      ys <- map_result f rest ;;
      Ok (y :: ys)
  end.

(** [new Set(rides.map((r) => r.model))], as the list of its members, and
    [set.has(s)] for a string [s]. *)
Definition ridden_set (k : string) (rides : list json)
  : result (list (option json)) :=
  map_result (field_of k) rides.

Definition has_string (members : list (option json)) (s : string) : bool :=
  existsb (fun m => match m with
                    | Some (JStr t) => (t =? s)%string
                    | _ => false
                    end) members.

(** The body of the two filters of [RideManager]. *)
Definition shown (hideRidden hideUnridden ridden : bool) : bool :=
  if hideRidden && ridden then false
  else if hideUnridden && negb ridden then false
  else true.

Definition filteredModels (hideRidden hideUnridden : bool)
  (datasets : Snapshot) (riddenModels : list (option json))
  : list RollingStockEntry :=
  filter (fun s => shown hideRidden hideUnridden
                     (has_string riddenModels (model s)))
    (rollingStock datasets).

Definition filteredLines (hideRidden hideUnridden : bool)
  (datasets : Snapshot) (riddenLines : list (option json))
  : list LineEntry :=
  filter (fun l => shown hideRidden hideUnridden
                     (has_string riddenLines (line_id l)))
    (lines datasets).
(* ================================================================== *)
(** * A reference engine                                               *)
(* ================================================================== *)

(** Executable versions of the four engine functions, for running the code
    on concrete values: percent-encoding of every byte outside the
    unreserved set, and JSON with integer numbers and the short escapes.
    The theorems do not depend on them. *)
Module Ref.

Definition quote : ascii := "034"%char.
Definition backslash : ascii := "092"%char.

Definition hex_digit (n : Z) : ascii :=
  ascii_of_N (Z.to_N (if n <? 10 then 48 + n else 55 + n)).

Definition hex_value (c : ascii) : option Z :=
  let n := byte_of c in
  if (48 <=? n) && (n <=? 57) then Some (n - 48)
  else if (65 <=? n) && (n <=? 70) then Some (n - 55)
  else if (97 <=? n) && (n <=? 102) then Some (n - 87)
  else None.

Definition unreserved (c : ascii) : bool :=
  uri_char c && negb (Ascii.eqb c "%").

Fixpoint encode (s : string) : string :=
  match s with
  | EmptyString => EmptyString
  | String c r =>
      if unreserved c then String c (encode r)
      else String "%" (String (hex_digit (byte_of c / 16))
                         (String (hex_digit (byte_of c mod 16)) (encode r)))
  end.

Definition encode_component (s : string) : result string := Ok (encode s).

Fixpoint decode_component (s : string) : result string :=
  match s with
  | EmptyString => Ok EmptyString
  | String c r =>
      if Ascii.eqb c "%" then
        match r with
        | String a (String b r') =>
            match hex_value a, hex_value b with
            | Some x, Some y =>
                rest <- decode_component r' ;;
                Ok (String (ascii_of_N (Z.to_N (16 * x + y))) rest)
            | _, _ => Throw (URIError "URI malformed")
            end
        | _ => Throw (URIError "URI malformed")
        end
      else
        rest <- decode_component r ;;
        Ok (String c rest)
  end.

(** ** Writing JSON *)

Definition escape_char (c : ascii) : string :=
  let n := byte_of c in
  if Ascii.eqb c quote then String backslash (String quote "")
  else if Ascii.eqb c backslash then String backslash (String backslash "")
  else if n =? 10 then String backslash "n"
  else if n =? 13 then String backslash "r"
  else if n =? 9 then String backslash "t"
  else if n =? 8 then String backslash "b"
  else if n =? 12 then String backslash "f"
  else if n <? 32 then
    String backslash
      (String "u" (String "0" (String "0"
         (String (hex_digit (n / 16)) (String (hex_digit (n mod 16)) "")))))
  else String c "".

Fixpoint escape (s : string) : string :=
  match s with
  | EmptyString => EmptyString
  | String c r => escape_char c ++ escape r
  end.

Definition quoted (s : string) : string :=
  String quote (escape s ++ String quote "").

Fixpoint stringify (v : json) : string :=
  match v with
  | JNull => "null"
  | JBool true => "true"
  | JBool false => "false"
  | JNum z => to_string (Int z)
  | JStr s => quoted s
  | JArr items => "[" ++ String.concat "," (map stringify items) ++ "]"
  | JObj fields =>
      "{" ++ String.concat ","
               (map (fun kv => quoted (fst kv) ++ ":" ++ stringify (snd kv))
                  fields)
      ++ "}"
  end.

(** ** Reading JSON *)

Fixpoint skip_ws (s : string) : string :=
  match s with
  | String c r =>
      let n := byte_of c in
      if (n =? 32) || (n =? 9) || (n =? 10) || (n =? 13) then skip_ws r else s
  | EmptyString => s
  end.

(** [word] at the front of [s], then the rest. *)
Definition expect (word s : string) : option string :=
  if String.prefix word s
  then Some (String.substring (String.length word)
               (String.length s - String.length word) s)
  else None.

(** The characters of a string literal up to its closing quote. *)
Fixpoint parse_chars (s : string) : option (string * string) :=
  match s with
  | EmptyString => None
  | String c r =>
      if Ascii.eqb c quote then Some (EmptyString, r)
      else if Ascii.eqb c backslash then
        match r with
        | String e r' =>
            let plain_escape (x : ascii) :=
              match parse_chars r' with
              | Some (t, r'') => Some (String x t, r'')
              | None => None
              end in
            if Ascii.eqb e quote then plain_escape quote
            else if Ascii.eqb e backslash then plain_escape backslash
            else if Ascii.eqb e "/" then plain_escape "/"%char
            else if Ascii.eqb e "n" then plain_escape "010"%char
            else if Ascii.eqb e "r" then plain_escape "013"%char
            else if Ascii.eqb e "t" then plain_escape "009"%char
            else if Ascii.eqb e "b" then plain_escape "008"%char
            else if Ascii.eqb e "f" then plain_escape "012"%char
            else if Ascii.eqb e "u" then
              match r' with
              | String z1 (String z2 (String a (String b r''))) =>
                  match hex_value a, hex_value b, parse_chars r'' with
                  | Some x, Some y, Some (t, r3) =>
                      if Ascii.eqb z1 "0" && Ascii.eqb z2 "0"
                         && (16 * x + y <? 128)
                      then Some (String (ascii_of_N (Z.to_N (16 * x + y))) t, r3)
                      else None
                  | _, _, _ => None
                  end
              | _ => None
              end
            else None
        | EmptyString => None
        end
      else if byte_of c <? 32 then None
      else match parse_chars r with
           | Some (t, r') => Some (String c t, r')
           | None => None
           end
  end.

Fixpoint drop_digits (s : string) : string :=
  match s with
  | String c r => if is_digit c then drop_digits r else s
  | EmptyString => s
  end.

Definition parse_number (s : string) : option (json * string) :=
  match s with
  | String c r =>
      if Ascii.eqb c "-" then
        match r with
        | String d _ =>
            if is_digit d then Some (JNum (- digits_value 0 r), drop_digits r)
            else None
        | EmptyString => None
        end
      else if is_digit c then Some (JNum (digits_value 0 s), drop_digits r)
      else None
  | EmptyString => None
  end.

(** The mark [c] after white space, then the rest. *)
Definition closing (c : ascii) (s : string) : option string :=
  match skip_ws s with
  | String x r => if Ascii.eqb x c then Some r else None
  | EmptyString => None
  end.

Fixpoint parse_value (fuel : nat) (s : string) {struct fuel}
  : option (json * string) :=
  match fuel with
  | O => None
  | S f =>
      match skip_ws s with
      | EmptyString => None
      | String c r =>
          if Ascii.eqb c "[" then
            match closing "]" r with
            | Some r' => Some (JArr [], r')
            | None => match parse_elements f r with
                      | Some (l, r') => Some (JArr l, r')
                      | None => None
                      end
            end
          else if Ascii.eqb c "{" then
            match closing "}" r with
            | Some r' => Some (JObj [], r')
            | None => match parse_members f r with
                      | Some (l, r') => Some (JObj l, r')
                      | None => None
                      end
            end
          else if Ascii.eqb c quote then
            match parse_chars r with
            | Some (t, r') => Some (JStr t, r')
            | None => None
            end
          else if Ascii.eqb c "n" then
            option_map (pair JNull) (expect "ull" r)
          else if Ascii.eqb c "t" then
            option_map (pair (JBool true)) (expect "rue" r)
          else if Ascii.eqb c "f" then
            option_map (pair (JBool false)) (expect "alse" r)
          else parse_number (String c r)
      end
  end
with parse_elements (fuel : nat) (s : string) {struct fuel}
  : option (list json * string) :=
  match fuel with
  | O => None
  | S f =>
      match parse_value f s with
      | None => None
      | Some (v, r) =>
          match closing "," r, closing "]" r with
          | Some r', _ =>
              match parse_elements f r' with
              | Some (l, r'') => Some (v :: l, r'')
              | None => None
              end
          | None, Some r' => Some ([v], r')
          | None, None => None
          end
      end
  end
with parse_members (fuel : nat) (s : string) {struct fuel}
  : option (list (string * json) * string) :=
  match fuel with
  | O => None
  | S f =>
      match skip_ws s with
      | String c r =>
          if negb (Ascii.eqb c quote) then None else
          match parse_chars r with
          | None => None
          | Some (k, r1) =>
              match closing ":" r1 with
              | Some r2 =>
                  match parse_value f r2 with
                  | None => None
                  | Some (v, r3) =>
                      match closing "," r3, closing "}" r3 with
                      | Some r4, _ =>
                          match parse_members f r4 with
                          | Some (l, r5) => Some ((k, v) :: l, r5)
                          | None => None
                          end
                      | None, Some r4 => Some ([(k, v)], r4)
                      | None, None => None
                      end
                  end
              | None => None
              end
          end
      | EmptyString => None
      end
  end.

Definition parse (s : string) : result json :=
  match parse_value (2 * String.length s + 2) s with
  | Some (v, r) =>
      match skip_ws r with
      | EmptyString => Ok v
      | _ => Throw (SyntaxError "Unexpected non-whitespace character after JSON")
      end
  | None => Throw (SyntaxError "Unexpected token")
  end.

Definition engine : Engine :=
  mkEngine parse stringify encode_component decode_component lowercase.

(** The ledger on this engine. *)
Definition read : Document -> result (list json) :=
  @readRidesFromCookie engine.
Definition write : list json -> Document -> result Document :=
  @writeRidesToCookie engine.
Definition import : option string -> Page -> result Page :=
  @importRides engine.
Definition delete : string -> Page -> result Page :=
  @deleteRide engine.
Definition add : json -> Page -> Page :=
  @onAddRide engine.

(** ** Values to run the code on *)

Definition ride1 : RideRecord :=
  mkRide "11111111-1111-4111-8111-111111111111" "4210" "A" "#2850AD"
    "R211A" "B" "2025-01-01T12:00:00.000Z".

Definition ride2 : RideRecord :=
  mkRide "22222222-2222-4222-8222-222222222222" "1305" "1" "#EE352E"
    "R62" "A" "2025-01-02T08:30:00.000Z".

(** A document with one cookie of another site feature in the jar. *)
Definition document0 : Document := mkDocument [("theme", "dark")] true.


Definition two_rides : list json := map ride_json [ride1; ride2].


(** A jar whose ledger cookie does not decode, one whose cookie decodes to
    text that is not JSON, and one whose cookie holds a JSON object. *)
Definition undecodable : Document :=
  mkDocument [("nyc_subway_rides", "%ZZ")] true.
Definition unparsable : Document :=
  mkDocument [("nyc_subway_rides", "%5Bnot-json")] true.
Definition holds_object : Document :=
  mkDocument [("nyc_subway_rides", "%7B%7D")] true.

(** The Stats page with two rides in its state. *)
Definition stats_page : Page := mkPage two_rides document0 [] "" true.

(** The Stats page as it is once it has mounted on a cookie that holds the
    two rides. *)
Definition mounted_page : Page :=
  @useCookieRides engine
    (after_effect (write two_rides document0) document0).

(** The table of scenarios A and B. *)
Definition R211A_table : list RollingStockEntry :=
  [mkStock "R211A" [rng 4000 4399] "B"].

End Ref.

(* ================================================================== *)
(** * Theorems: the classifier                                         *)
(* ================================================================== *)

Section Facts.

Context {engine : Engine}.

(** ** The order of numbers *)

Lemma num_ge_le (a b : number) : num_ge a b = num_le b a.
Proof. destruct a as [|x|[]], b as [|y|[]]; reflexivity. Qed.

Lemma num_le_trans (a b c : number) :
  num_le a b = true -> num_le b c = true -> num_le a c = true.
Proof.
  destruct a as [|x|[]], b as [|y|[]], c as [|z|[]]; simpl;
    try discriminate; try reflexivity.
  rewrite !Z.leb_le. lia.
Qed.

Lemma num_lt_not_le (a b : number) :
  num_lt a b = true -> num_le b a = false.
Proof.
  destruct a as [|x|[]], b as [|y|[]]; simpl; try discriminate;
    try reflexivity.
  rewrite Z.ltb_lt, Z.leb_gt. lia.
Qed.

(** An integer of magnitude below 2^53 is a double. *)
Lemma to_double_exact (z : Z) : Z.abs z < 2 ^ 53 -> to_double z = Int z.
Proof.
  intros H. unfold to_double. apply Z.ltb_lt in H. now rewrite H.
Qed.

Lemma to_double_not_NaN (z : Z) : isNaN (to_double z) = false.
Proof.
  unfold to_double. cbv zeta. destruct (Z.abs z <? 2 ^ 53); [reflexivity|].
  match goal with |- context [if 2 ^ 1024 <=? ?m then _ else _] =>
    destruct (2 ^ 1024 <=? m) end; reflexivity.
Qed.

(** ** The two loops *)

Lemma scan_ranges_contains (n : number) (rs : list range) :
  scan_ranges n rs = existsb (contains n) rs.
Proof.
  induction rs as [|[lo hi] rs IH]; simpl; [reflexivity|].
  rewrite <- IH, num_ge_le.
  now destruct (num_le lo n && num_le n hi).
Qed.

Lemma existsb_false_Forall {A} (p : A -> bool) (l : list A) :
  existsb p l = false <-> Forall (fun x => p x = false) l.
Proof.
  induction l as [|x l IH]; simpl.
  - split; [constructor | reflexivity].
  - rewrite orb_false_iff, IH. split.
    + intros [Hx Hl]. now constructor.
    + intros H. inversion H; subst. now split.
Qed.

Lemma existsb_true_Exists {A} (p : A -> bool) (l : list A) :
  existsb p l = true <-> Exists (fun x => p x = true) l.
Proof.
  rewrite existsb_exists, Exists_exists. reflexivity.
Qed.

Lemma scan_entries_first_match (n : number) (T : list RollingStockEntry) :
  FirstMatch n T (scan_entries n T).
Proof.
  induction T as [|e T IH]; simpl.
  - apply FirstMatch_none. constructor.
  - rewrite scan_ranges_contains.
    destruct (existsb (contains n) (ranges e)) eqn:He.
    + apply (FirstMatch_hit n (e :: T) [] e T); [reflexivity | constructor |].
      now apply existsb_true_Exists.
    + apply existsb_false_Forall in He.
      inversion IH as [Hall Hnone | before e' after HT Hbefore Hhit Hsome].
      * apply FirstMatch_none. now constructor.
      * apply (FirstMatch_hit n (e :: T) (e :: before) e' after).
        -- now rewrite HT.
        -- now constructor.
        -- exact Hhit.
Qed.

(** The relation [FirstMatch] has one answer per table: it is the function
    the specification describes. *)
Lemma FirstMatch_functional (n : number) (T : list RollingStockEntry)
  (r1 r2 : option Detected) :
  FirstMatch n T r1 -> FirstMatch n T r2 -> r1 = r2.
Proof.
  revert r1 r2. induction T as [|e T IH]; intros r1 r2 H1 H2.
  - inversion H1 as [|b1 e1 a1 E1]; inversion H2 as [|b2 e2 a2 E2]; subst;
      try reflexivity;
      try (destruct b1; discriminate); try (destruct b2; discriminate).
  - assert (Hstep : forall r, FirstMatch n (e :: T) r ->
              (existsb (contains n) (ranges e) = true
               /\ r = Some (mkDetected (model e) (division e)))
              \/ (existsb (contains n) (ranges e) = false /\ FirstMatch n T r)).
    { intros r H. inversion H as [Hall | before e' after HT Hbefore Hhit]; subst.
      - right. inversion Hall; subst. split.
        + now apply existsb_false_Forall.
        + now apply FirstMatch_none.
      - destruct before as [|b before]; simpl in HT; inversion HT; subst.
        + left. split; [now apply existsb_true_Exists | reflexivity].
        + right. inversion Hbefore; subst. split.
          * now apply existsb_false_Forall.
          * now apply (FirstMatch_hit n _ before e' after). }
    destruct (Hstep _ H1) as [[Ha ->]|[Ha H1']], (Hstep _ H2) as [[Hb ->]|[Hb H2']];
      try congruence.
    now apply IH.
Qed.

(** C1. For every car-number string and every rolling-stock table, when the
    string parses to a number [n] (the double that [parseInt] returns, an
    infinity included), [detectModelFromNumber] walks the entries in table
    order and the ranges of each entry in their order, and returns the
    model and the division of the first entry one of whose ranges contains
    [n], both ends included; it returns null when no range of any entry
    contains [n]. *)
Theorem detect_returns_first_match (numStr : string)
  (T : list RollingStockEntry) (n : number) :
  parseInt numStr = n -> isNaN n = false ->
  FirstMatch n T (detectModelFromNumber numStr T).
Proof.
  intros Hparse Hnum. unfold detectModelFromNumber. rewrite Hparse, Hnum.
  apply scan_entries_first_match.
Qed.

(** Only the digits that [parseInt] reads can turn into a number. *)
Lemma trimStart_no_digit (s : string) :
  has_digit s = false -> has_digit (trimStart s) = false.
Proof.
  revert s.
  fix IH 1. intros s.
  destruct s as [|a r1]; [reflexivity|].
  intros H. cbn [trimStart].
  cbn [has_digit] in H. apply orb_false_iff in H as [Ha H1].
  destruct (ws1 a); [now apply IH|].
  destruct r1 as [|b r2]; [cbn; now rewrite Ha|].
  cbn [has_digit] in H1. apply orb_false_iff in H1 as [Hb H2].
  destruct (ws2 a b); [now apply IH|].
  destruct r2 as [|c r3]; [cbn; now rewrite Ha, Hb|].
  cbn [has_digit] in H2. apply orb_false_iff in H2 as [Hc H3].
  destruct (ws3 a b c); [now apply IH|].
  cbn. now rewrite Ha, Hb, Hc.
Qed.

Lemma parseInt_no_digit (s : string) :
  has_digit s = false -> parseInt s = NaN.
Proof.
  intros H. apply trimStart_no_digit in H. unfold parseInt.
  destruct (trimStart s) as [|a r]; [reflexivity|].
  cbn [has_digit] in H. apply orb_false_iff in H as [Ha Hr].
  assert (Hbody : match r with
                  | EmptyString => NaN
                  | String c _ =>
                      match digit_of c with
                      | Some _ => to_double (-1 * digits_value 0 r)
                      | None => NaN
                      end
                  end = NaN
                  /\ match r with
                  | EmptyString => NaN
                  | String c _ =>
                      match digit_of c with
                      | Some _ => to_double (1 * digits_value 0 r)
                      | None => NaN
                      end
                  end = NaN).
  { destruct r as [|c r']; [now split|].
    cbn [has_digit] in Hr. apply orb_false_iff in Hr as [Hc _].
    unfold is_digit in Hc. destruct (digit_of c); [discriminate | now split]. }
  destruct Hbody as [Hneg Hpos].
  unfold is_digit in Ha.
  destruct (Ascii.eqb a "-") eqn:Em; [apply Ascii.eqb_eq in Em; subst a; exact Hneg|].
  destruct (Ascii.eqb a "+") eqn:Ep; [apply Ascii.eqb_eq in Ep; subst a; exact Hpos|].
  assert (Hgen : (let '(sign, body) :=
                    match String a r with
                    | String "-" r0 => (-1, r0)
                    | String "+" r0 => (1, r0)
                    | _ => (1, String a r)
                    end in
                  match body with
                  | EmptyString => NaN
                  | String c _ =>
                      match digit_of c with
                      | Some _ => to_double (sign * digits_value 0 body)
                      | None => NaN
                      end
                  end)
                 = match digit_of a with
                   | Some _ => to_double (1 * digits_value 0 (String a r))
                   | None => NaN
                   end).
  { destruct a as [[] [] [] [] [] [] [] []]; try reflexivity; discriminate. }
  rewrite Hgen. destruct (digit_of a); [discriminate | reflexivity].
Qed.

(** C2. For every rolling-stock table and every input string that is empty,
    or holds no digit at all, or in any other way does not parse as a
    base-10 integer, [detectModelFromNumber] returns null: no model is ever
    matched for such a string. *)
Theorem detect_unparsable_is_null (numStr : string)
  (T : list RollingStockEntry) :
  numStr = "" \/ has_digit numStr = false \/ parseInt numStr = NaN ->
  detectModelFromNumber numStr T = None.
Proof.
  intros [-> | [H | H]]; unfold detectModelFromNumber.
  - reflexivity.
  - now rewrite (parseInt_no_digit numStr H).
  - now rewrite H.
Qed.

(** ** Order independence on disjoint tables *)

Lemma contains_overlap (n : number) (r1 r2 : range) :
  contains n r1 = true -> contains n r2 = true -> ranges_overlap r1 r2 = true.
Proof.
  destruct r1 as [lo1 hi1], r2 as [lo2 hi2]. unfold contains, ranges_overlap.
  rewrite !andb_true_iff. intros [Hl1 Hh1] [Hl2 Hh2].
  repeat split; eapply num_le_trans; eassumption.
Qed.

Lemma ForallOrdPairs_app_inv {A} (R : A -> A -> Prop) (l1 l2 : list A) :
  ForallOrdPairs R (l1 ++ l2) ->
  ForallOrdPairs R l2 /\ (forall x y, In x l1 -> In y l2 -> R x y).
Proof.
  induction l1 as [|a l1 IH]; simpl; intros H.
  - split; [exact H | intros x y []].
  - inversion H as [|a' l' Ha Hrest]; subst.
    destruct (IH Hrest) as [H2 Hcross]. split; [exact H2|].
    intros x y [<- | Hx] Hy.
    + rewrite Forall_forall in Ha. apply Ha, in_or_app. now right.
    + now apply Hcross.
Qed.

(** On a disjoint table, at most one entry has a range containing [n]. *)
Lemma disjoint_table_one_match (n : number) (T : list RollingStockEntry) :
  disjoint_table T -> (List.length (filter (entry_contains n) T) <= 1)%nat.
Proof.
  unfold disjoint_table.
  induction T as [|e T IH]; simpl; intros H; [lia|].
  apply ForallOrdPairs_app_inv in H as [HT Hcross].
  specialize (IH HT).
  destruct (entry_contains n e) eqn:He; [|exact IH].
  simpl.
  assert (Hnone : filter (entry_contains n) T = []).
  { destruct (filter (entry_contains n) T) as [|e' l] eqn:Hf; [reflexivity|].
    assert (Hin : In e' (filter (entry_contains n) T)) by (rewrite Hf; now left).
    apply filter_In in Hin as [Hin He'].
    unfold entry_contains in He, He'.
    apply existsb_exists in He as [r1 [Hr1 Hc1]].
    apply existsb_exists in He' as [r2 [Hr2 Hc2]].
    assert (Hov : ranges_overlap r1 r2 = false).
    { apply Hcross; [exact Hr1|]. apply in_flat_map. now exists e'. }
    rewrite (contains_overlap n r1 r2 Hc1 Hc2) in Hov. discriminate. }
  rewrite Hnone. simpl. lia.
Qed.

Lemma scan_entries_filter (n : number) (T : list RollingStockEntry) :
  scan_entries n T
  = option_map detected_of (hd_error (filter (entry_contains n) T)).
Proof.
  induction T as [|e T IH]; simpl; [reflexivity|].
  rewrite scan_ranges_contains. fold (entry_contains n e).
  now destruct (entry_contains n e).
Qed.

Lemma filter_Permutation {A} (p : A -> bool) (l l' : list A) :
  Permutation l l' -> Permutation (filter p l) (filter p l').
Proof.
  induction 1 as [| x l l' _ IH | x y l | l l' l'' _ IH1 _ IH2]; simpl.
  - constructor.
  - destruct (p x); [now constructor | exact IH].
  - destruct (p x), (p y); try apply Permutation_refl. apply perm_swap.
  - now transitivity (filter p l').
Qed.

Lemma short_Permutation_eq {A} (l l' : list A) :
  (List.length l <= 1)%nat -> Permutation l l' -> l = l'.
Proof.
  destruct l as [|a [|b l]]; simpl; intros Hlen HP; try lia.
  - now apply Permutation_nil in HP.
  - now apply Permutation_length_1_inv in HP.
Qed.

(** C9. For every car-number string and every pair of rolling-stock tables
    that are permutations of one another, when all ranges across all entries
    are pairwise disjoint, [detectModelFromNumber] returns the same result
    on both tables.  Whether or not ranges overlap, the result on a table
    is the model and division of the first entry, in the order of that
    table, with a range that contains the parsed number. *)
Theorem detect_order_independent (numStr : string)
  (T T' : list RollingStockEntry) :
  (Permutation T T' -> disjoint_table T ->
   detectModelFromNumber numStr T = detectModelFromNumber numStr T')
  /\ (forall n, parseInt numStr = n -> isNaN n = false ->
                FirstMatch n T (detectModelFromNumber numStr T)).
Proof.
  unfold detectModelFromNumber. split.
  - intros HP HD.
    destruct (isNaN (parseInt numStr)); [reflexivity|].
    rewrite !scan_entries_filter. f_equal. f_equal.
    apply short_Permutation_eq.
    + now apply disjoint_table_one_match.
    + now apply filter_Permutation.
  - intros n Hn Hnum. rewrite Hn, Hnum. apply scan_entries_first_match.
Qed.

(** With overlapping ranges the answer depends on the order: the entry that
    comes first wins. *)
Example overlapping_fixture_first_wins :
  let a := mkStock "Early" [(Int 1, Int 10)] "A" in
  let b := mkStock "Late" [(Int 5, Int 15)] "B" in
  detectModelFromNumber "7" [a; b] = Some (mkDetected "Early" "A")
  /\ detectModelFromNumber "7" [b; a] = Some (mkDetected "Late" "B").
Proof. split; reflexivity. Qed.

(** ** Inverted ranges *)

Lemma inverted_contains (n : number) (r : range) :
  inverted r = true -> contains n r = false.
Proof.
  destruct r as [lo hi]. unfold inverted, contains. intros H.
  apply num_lt_not_le in H.
  destruct (num_le lo n) eqn:Hlo; [|reflexivity].
  destruct (num_le n hi) eqn:Hhi; [|reflexivity].
  now rewrite (num_le_trans lo n hi Hlo Hhi) in H.
Qed.

Lemma existsb_drop_inverted (n : number) (rs : list range) :
  existsb (contains n) (filter (fun r => negb (inverted r)) rs)
  = existsb (contains n) rs.
Proof.
  induction rs as [|r rs IH]; simpl; [reflexivity|].
  destruct (inverted r) eqn:Hr; simpl.
  - now rewrite (inverted_contains n r Hr).
  - now rewrite IH.
Qed.

Lemma scan_entries_drop_inverted (n : number) (T : list RollingStockEntry) :
  scan_entries n (map drop_inverted T) = scan_entries n T.
Proof.
  induction T as [|e T IH]; simpl; [reflexivity|].
  rewrite !scan_ranges_contains, existsb_drop_inverted, IH. reflexivity.
Qed.

Lemma scan_entries_outcome (n : number) (T : list RollingStockEntry) :
  scan_entries n T = None
  \/ exists e, In e T
               /\ scan_entries n T = Some (mkDetected (model e) (division e)).
Proof.
  induction T as [|e T IH]; simpl; [now left|].
  destruct (scan_ranges n (ranges e)).
  - right. exists e. split; [now left | reflexivity].
  - destruct IH as [IH | [e' [Hin IH]]]; [now left|].
    right. exists e'. split; [now right | exact IH].
Qed.

(** C10. [detectModelFromNumber] gives an answer for every input string and
    every table of numeric range pairs: null, or the model and division of
    an entry of the table.  A range whose low end is above its high end
    contains no number, and the answer is the one the table gives with all
    such ranges removed. *)
Theorem detect_total_skips_inverted (numStr : string)
  (T : list RollingStockEntry) :
  (detectModelFromNumber numStr T = None
   \/ exists e, In e T
                /\ detectModelFromNumber numStr T
                   = Some (mkDetected (model e) (division e)))
  /\ (forall n r, inverted r = true -> contains n r = false)
  /\ detectModelFromNumber numStr (map drop_inverted T)
     = detectModelFromNumber numStr T.
Proof.
  unfold detectModelFromNumber. split; [|split].
  - destruct (isNaN (parseInt numStr)); [now left|].
    apply scan_entries_outcome.
  - intros n r. apply inverted_contains.
  - destruct (isNaN (parseInt numStr)); [reflexivity|].
    apply scan_entries_drop_inverted.
Qed.

(* ================================================================== *)
(** * Theorems: strings and the cookie jar                             *)
(* ================================================================== *)

Lemma append_assoc (a b c : string) : ((a ++ b) ++ c = a ++ (b ++ c))%string.
Proof. induction a as [|x a IH]; simpl; [reflexivity | now rewrite IH]. Qed.

Lemma append_empty_r (a : string) : (a ++ "")%string = a.
Proof. induction a as [|x a IH]; simpl; [reflexivity | now rewrite IH]. Qed.

Lemma append_length (a b : string) :
  String.length (a ++ b) = (String.length a + String.length b)%nat.
Proof. induction a as [|x a IH]; simpl; [reflexivity | now rewrite IH]. Qed.

Lemma rev_onto_reverse (s acc : string) :
  rev_onto s acc = (reverse s ++ acc)%string.
Proof.
  unfold reverse. revert acc.
  induction s as [|a r IH]; intros acc; simpl; [reflexivity|].
  rewrite (IH (String a acc)), (IH (String a EmptyString)), append_assoc.
  reflexivity.
Qed.

Lemma reverse_cons (a : ascii) (r : string) :
  reverse (String a r) = (reverse r ++ String a "")%string.
Proof. unfold reverse at 1. simpl. apply rev_onto_reverse. Qed.

Lemma reverse_append (s t : string) :
  reverse (s ++ t) = (reverse t ++ reverse s)%string.
Proof.
  induction s as [|a r IH]; simpl.
  - now rewrite append_empty_r.
  - now rewrite !reverse_cons, IH, append_assoc.
Qed.

Lemma reverse_involutive (s : string) : reverse (reverse s) = s.
Proof.
  induction s as [|a r IH]; [reflexivity|].
  now rewrite reverse_cons, reverse_append, IH.
Qed.

Lemma string_forall_append (p : ascii -> bool) (s t : string) :
  string_forall p (s ++ t) = string_forall p s && string_forall p t.
Proof.
  induction s as [|a r IH]; simpl; [reflexivity|].
  now rewrite IH, andb_assoc.
Qed.

Lemma string_forall_reverse (p : ascii -> bool) (s : string) :
  string_forall p (reverse s) = string_forall p s.
Proof.
  induction s as [|a r IH]; [reflexivity|].
  rewrite reverse_cons, string_forall_append, IH. simpl.
  rewrite andb_true_r. apply andb_comm.
Qed.

Lemma string_forall_impl (p q : ascii -> bool) (s : string) :
  (forall c, p c = true -> q c = true) ->
  string_forall p s = true -> string_forall q s = true.
Proof.
  intros Hpq. induction s as [|a r IH]; simpl; [reflexivity|].
  rewrite !andb_true_iff. intros [Ha Hr]. split; [now apply Hpq | now apply IH].
Qed.

(** ** Trimming leaves plain text alone *)

Lemma plain_not_ws (c : ascii) :
  plain c = true ->
  ws1 c = false /\ (forall b, ws2 c b = false) /\ (forall b, ws2 b c = false)
  /\ (forall a b, ws3 c a b = false) /\ (forall a b, ws3 a b c = false).
Proof.
  unfold plain. rewrite andb_true_iff, negb_true_iff, Z.ltb_lt.
  intros [Hlt Hws].
  assert (Hne : forall k, 128 <= k -> (byte_of c =? k) = false).
  { intros k Hk. apply Z.eqb_neq. lia. }
  assert (Hge : (128 <=? byte_of c) = false) by (apply Z.leb_gt; lia).
  split; [exact Hws|]. unfold ws2, ws3. cbv zeta.
  repeat split; intros;
    rewrite ?Hge, ?(Hne 128), ?(Hne 159), ?(Hne 160), ?(Hne 168), ?(Hne 169),
      ?(Hne 175), ?(Hne 191), ?(Hne 194), ?(Hne 225), ?(Hne 226), ?(Hne 227),
      ?(Hne 239) by lia;
    cbn [andb orb]; rewrite ?andb_false_r; reflexivity.
Qed.

Lemma trimStart_plain (s : string) :
  string_forall plain s = true -> trimStart s = s.
Proof.
  destruct s as [|a r1]; [reflexivity|]. simpl.
  rewrite andb_true_iff. intros [Ha _].
  destruct (plain_not_ws a Ha) as (H1 & H2 & _ & H3 & _).
  rewrite H1. destruct r1 as [|b r2]; [reflexivity|].
  rewrite H2. destruct r2 as [|c r3]; [reflexivity|].
  now rewrite H3.
Qed.

Lemma trimStart_rev_plain (s : string) :
  string_forall plain s = true -> trimStart_rev s = s.
Proof.
  destruct s as [|c r1]; [reflexivity|]. simpl.
  rewrite andb_true_iff. intros [Hc _].
  destruct (plain_not_ws c Hc) as (H1 & _ & H2 & _ & H3).
  rewrite H1. destruct r1 as [|b r2]; [reflexivity|].
  rewrite H2. destruct r2 as [|a r3]; [reflexivity|].
  now rewrite H3.
Qed.

Lemma trim_plain (s : string) :
  string_forall plain s = true -> trim s = s.
Proof.
  intros H. unfold trim, trimEnd.
  rewrite (trimStart_plain s H), trimStart_rev_plain.
  - apply reverse_involutive.
  - now rewrite string_forall_reverse.
Qed.

Lemma trim_leading_space (s : string) : trim (String " " s) = trim s.
Proof. reflexivity. Qed.

Lemma strip_wsp_plain (s : string) :
  string_forall plain s = true -> strip_wsp s = s.
Proof.
  assert (Hstart : forall t, string_forall plain t = true ->
                             strip_wsp_start t = t).
  { intros [|a r]; [reflexivity|]. simpl. rewrite andb_true_iff.
    intros [Ha _]. unfold plain in Ha. unfold is_wsp, ws1 in *.
    apply andb_true_iff in Ha as [Hlt Hws]. apply negb_true_iff in Hws.
    apply orb_false_iff in Hws as [Hrange Hsp].
    rewrite Hsp. simpl.
    destruct (Z.eqb_spec (byte_of a) 9) as [E|]; [|reflexivity].
    rewrite E in Hrange. discriminate. }
  intros H. unfold strip_wsp. rewrite (Hstart s H), Hstart.
  - apply reverse_involutive.
  - now rewrite string_forall_reverse.
Qed.

Lemma uri_char_facts (c : ascii) :
  uri_char c = true ->
  plain c = true /\ Ascii.eqb c ";" = false /\ Ascii.eqb c "=" = false.
Proof.
  destruct c as [[] [] [] [] [] [] [] []]; vm_compute; intros H;
    try discriminate H; repeat split.
Qed.

Lemma uri_text_plain (e : string) :
  uri_text e = true -> string_forall plain e = true.
Proof.
  apply string_forall_impl. intros c H. now apply uri_char_facts in H.
Qed.

Lemma uri_text_no_semicolon (e : string) :
  uri_text e = true -> no_semicolon e = true.
Proof.
  apply string_forall_impl. intros c H.
  apply uri_char_facts in H as (_ & -> & _). reflexivity.
Qed.

Lemma uri_text_no_equals (e : string) :
  uri_text e = true ->
  string_forall (fun c => negb (Ascii.eqb c "=")) e = true.
Proof.
  apply string_forall_impl. intros c H.
  apply uri_char_facts in H as (_ & _ & ->). reflexivity.
Qed.

(** ** Splitting *)

Lemma split_nonempty (sep : ascii) (s : string) : split sep s <> [].
Proof.
  induction s as [|a r IH]; simpl; [discriminate|].
  destruct (Ascii.eqb a sep); [discriminate|].
  destruct (split sep r); [contradiction | discriminate].
Qed.

Lemma split_no_separator (sep : ascii) (s : string) :
  string_forall (fun c => negb (Ascii.eqb c sep)) s = true ->
  split sep s = [s].
Proof.
  induction s as [|a r IH]; simpl; [reflexivity|].
  rewrite andb_true_iff, negb_true_iff. intros [Ha Hr].
  now rewrite Ha, (IH Hr).
Qed.

Lemma split_append (sep : ascii) (a b : string) :
  string_forall (fun c => negb (Ascii.eqb c sep)) a = true ->
  split sep (a ++ String sep b) = a :: split sep b.
Proof.
  induction a as [|x a IH]; simpl.
  - intros _. now rewrite Ascii.eqb_refl.
  - rewrite andb_true_iff, negb_true_iff. intros [Hx Ha].
    now rewrite Hx, (IH Ha).
Qed.

Lemma cut_append (sep : ascii) (a b : string) :
  string_forall (fun c => negb (Ascii.eqb c sep)) a = true ->
  cut sep (a ++ String sep b) = Some (a, b).
Proof.
  induction a as [|x a IH]; simpl.
  - intros _. now rewrite Ascii.eqb_refl.
  - rewrite andb_true_iff, negb_true_iff. intros [Hx Ha].
    now rewrite Hx, (IH Ha).
Qed.

Lemma startsWith_append (p s : string) : startsWith (p ++ s) p = true.
Proof.
  unfold startsWith. induction p as [|a p IH]; simpl.
  - now destruct s.
  - destruct (ascii_dec a a); [exact IH | contradiction].
Qed.

(** ** What [document.cookie] reads as *)

Lemma serialize_no_semicolon (c : cookie) :
  no_semicolon (fst c) && no_semicolon (snd c) = true ->
  no_semicolon (serialize c) = true.
Proof.
  rewrite andb_true_iff. intros [Hn Hv]. unfold serialize.
  destruct (fst c =? "")%string; [exact Hv|].
  unfold no_semicolon in *.
  rewrite string_forall_append, Hn. simpl. exact Hv.
Qed.

Lemma cookie_string_cons (c : cookie) (rest : list cookie) :
  cookie_string (c :: rest)
  = match rest with
    | [] => serialize c
    | _ :: _ => (serialize c ++ String ";" (String " " (cookie_string rest)))%string
    end.
Proof. destruct rest; reflexivity. Qed.

Lemma trimmed_parts_space (text : string) :
  map trim (split ";" (String " " text)) = map trim (split ";" text).
Proof.
  simpl. destruct (split ";" text) as [|h t] eqn:E.
  - now apply split_nonempty in E.
  - reflexivity.
Qed.

(** The trimmed parts of [document.cookie] are the trimmed cookies. *)
Lemma trimmed_parts (c : cookie) (rest : list cookie) :
  jar_wf (c :: rest) = true ->
  map trim (split ";" (cookie_string (c :: rest)))
  = map (fun x => trim (serialize x)) (c :: rest).
Proof.
  revert c. induction rest as [|c' rest IH]; intros c Hwf.
  - simpl in Hwf. rewrite andb_true_r in Hwf.
    apply serialize_no_semicolon in Hwf.
    rewrite cookie_string_cons, (split_no_separator _ _ Hwf). reflexivity.
  - change (jar_wf (c :: c' :: rest))
      with ((no_semicolon (fst c) && no_semicolon (snd c))
            && jar_wf (c' :: rest)) in Hwf.
    apply andb_true_iff in Hwf as [Hc Hrest].
    apply serialize_no_semicolon in Hc.
    rewrite cookie_string_cons, (split_append _ _ _ Hc).
    cbn [map]. rewrite trimmed_parts_space, (IH c' Hrest). reflexivity.
Qed.

Lemma matched_cookie_jar (cookies : list cookie) :
  jar_wf cookies = true ->
  find_rides_cookie (cookie_string cookies)
  = find (fun s => startsWith s (COOKIE_NAME ++ "="))
      (map (fun x => trim (serialize x)) cookies).
Proof.
  intros Hwf. unfold find_rides_cookie.
  destruct cookies as [|c rest]; [reflexivity|].
  now rewrite trimmed_parts.
Qed.

(** With no cookie of the ledger's name in the jar, nothing is matched. *)
Lemma no_cookie_no_match (cookies : list cookie) :
  jar_wf cookies = true -> no_shadow cookies = true ->
  lookup_cookie COOKIE_NAME cookies = None ->
  find_rides_cookie (cookie_string cookies) = None.
Proof.
  intros Hwf Hsh Hlook. rewrite (matched_cookie_jar _ Hwf). clear Hwf.
  induction cookies as [|c rest IH]; [reflexivity|].
  cbn [lookup_cookie] in Hlook. cbn [no_shadow forallb] in Hsh.
  apply andb_true_iff in Hsh as [Hc Hrest].
  destruct (fst c =? COOKIE_NAME)%string; [discriminate|].
  rewrite orb_false_l in Hc. apply negb_true_iff in Hc.
  cbn [map find]. rewrite Hc. now apply IH.
Qed.

Lemma trim_written (v : string) :
  uri_text v = true ->
  trim (serialize (COOKIE_NAME, v)) = (COOKIE_NAME ++ "=" ++ v)%string.
Proof.
  intros Hv.
  change (serialize (COOKIE_NAME, v)) with ("nyc_subway_rides=" ++ v)%string.
  change (COOKIE_NAME ++ "=" ++ v)%string with ("nyc_subway_rides=" ++ v)%string.
  apply trim_plain.
  rewrite (string_forall_append plain "nyc_subway_rides=" v).
  rewrite (uri_text_plain v Hv). reflexivity.
Qed.

(** A cookie of the ledger's name whose value is made of URI characters is
    the part that is matched. *)
Lemma stored_cookie_matched (cookies : list cookie) (v : string) :
  jar_wf cookies = true -> no_shadow cookies = true ->
  lookup_cookie COOKIE_NAME cookies = Some v -> uri_text v = true ->
  find_rides_cookie (cookie_string cookies)
  = Some (COOKIE_NAME ++ "=" ++ v)%string.
Proof.
  intros Hwf Hsh Hlook Hv. rewrite (matched_cookie_jar _ Hwf). clear Hwf.
  assert (Hhit : startsWith (COOKIE_NAME ++ "=" ++ v) (COOKIE_NAME ++ "=") = true).
  { rewrite <- append_assoc. apply startsWith_append. }
  induction cookies as [|c rest IH]; [discriminate|].
  cbn [lookup_cookie] in Hlook. cbn [no_shadow forallb] in Hsh.
  apply andb_true_iff in Hsh as [Hc Hrest].
  destruct (fst c =? COOKIE_NAME)%string eqn:En.
  - apply String.eqb_eq in En. injection Hlook as Hsnd.
    destruct c as [n x]. simpl in En, Hsnd. subst n x.
    cbn [map find]. now rewrite (trim_written v Hv), Hhit.
  - rewrite orb_false_l in Hc. apply negb_true_iff in Hc.
    cbn [map find]. rewrite Hc. now apply IH.
Qed.

Lemma lookup_upsert (cookies : list cookie) (n v : string) :
  lookup_cookie n (upsert_cookie n v cookies) = Some v.
Proof.
  induction cookies as [|c rest IH]; simpl.
  - now rewrite String.eqb_refl.
  - destruct (fst c =? n)%string eqn:En; simpl.
    + now rewrite String.eqb_refl.
    + now rewrite En.
Qed.

Lemma jar_wf_upsert (cookies : list cookie) (e : string) :
  jar_wf cookies = true -> uri_text e = true ->
  jar_wf (upsert_cookie COOKIE_NAME e cookies) = true.
Proof.
  intros Hwf He. induction cookies as [|c rest IH]; simpl.
  - now rewrite (uri_text_no_semicolon e He).
  - simpl in Hwf. apply andb_true_iff in Hwf as [Hc Hrest].
    destruct (fst c =? COOKIE_NAME)%string; simpl.
    + now rewrite (uri_text_no_semicolon e He), Hrest.
    + now rewrite Hc, IH.
Qed.

Lemma no_shadow_upsert (cookies : list cookie) (e : string) :
  no_shadow cookies = true ->
  no_shadow (upsert_cookie COOKIE_NAME e cookies) = true.
Proof.
  intros Hsh. induction cookies as [|c rest IH]; [reflexivity|].
  cbn [no_shadow forallb] in Hsh. apply andb_true_iff in Hsh as [Hc Hrest].
  cbn [upsert_cookie]. destruct (fst c =? COOKIE_NAME)%string eqn:En.
  - cbn [no_shadow forallb]. exact Hrest.
  - cbn [no_shadow forallb]. rewrite En, orb_false_l.
    rewrite orb_false_l in Hc. rewrite Hc. now apply IH.
Qed.

(** After the ledger's cookie has been stored with a value of URI
    characters, it is the part that is matched. *)
Lemma upsert_matched (cookies : list cookie) (e : string) :
  jar_wf cookies = true -> no_shadow cookies = true -> uri_text e = true ->
  find_rides_cookie (cookie_string (upsert_cookie COOKIE_NAME e cookies))
  = Some (COOKIE_NAME ++ "=" ++ e)%string.
Proof.
  intros Hwf Hsh He. apply stored_cookie_matched.
  - now apply jar_wf_upsert.
  - now apply no_shadow_upsert.
  - apply lookup_upsert.
  - exact He.
Qed.

Lemma value_part_written (e : string) :
  uri_text e = true -> value_part (COOKIE_NAME ++ "=" ++ e) = e.
Proof.
  intros He. unfold value_part.
  change (COOKIE_NAME ++ "=" ++ e)%string
    with (COOKIE_NAME ++ String "=" e)%string.
  rewrite split_append by reflexivity.
  now rewrite (split_no_separator _ _ (uri_text_no_equals e He)).
Qed.

(** What the browser stores when [writeRidesToCookie] assigns its string. *)
Lemma store_written (e : string) (cookies : list cookie) :
  uri_text e = true ->
  (String.length COOKIE_NAME + String.length e <= cookie_limit)%nat ->
  store_cookie (COOKIE_NAME ++ "=" ++ e
                ++ "; Max-Age=" ++ to_string (Int maxAge) ++ "; Path=/") cookies
  = upsert_cookie COOKIE_NAME e cookies.
Proof.
  intros He Hlen. unfold store_cookie.
  change (COOKIE_NAME ++ "=" ++ e
          ++ "; Max-Age=" ++ to_string (Int maxAge) ++ "; Path=/")%string
    with ("nyc_subway_rides=" ++ (e ++ String ";" " Max-Age=34560000; Path=/"))%string.
  pose proof (uri_text_no_semicolon e He) as Hns. unfold no_semicolon in Hns.
  rewrite <- append_assoc, split_append.
  2:{ rewrite string_forall_append, Hns. reflexivity. }
  unfold name_value.
  change ("nyc_subway_rides=" ++ e)%string with (COOKIE_NAME ++ String "=" e)%string.
  rewrite cut_append by reflexivity.
  rewrite (strip_wsp_plain e (uri_text_plain e He)).
  change (strip_wsp COOKIE_NAME) with COOKIE_NAME.
  destruct (Nat.ltb_spec cookie_limit (String.length COOKIE_NAME + String.length e));
    [lia|].
  reflexivity.
Qed.

(* ================================================================== *)
(** * Theorems: the ride ledger                                        *)
(* ================================================================== *)

Lemma writeRidesToCookie_never_raises (R : list json) (d : Document) :
  exists d', writeRidesToCookie R d = Ok d'.
Proof.
  unfold writeRidesToCookie.
  destruct (encodeURIComponent (JSON_stringify (JArr R))) as [e|x]; simpl.
  - unfold set_cookie. destruct (cookie_access d); simpl; eauto.
  - eauto.
Qed.

(** What a successful write leaves in the jar. *)
Lemma writeRidesToCookie_stores (R : list json) (d : Document) (e : string) :
  cookie_access d = true ->
  encodeURIComponent (JSON_stringify (JArr R)) = Ok e ->
  uri_text e = true ->
  (String.length COOKIE_NAME + String.length e <= cookie_limit)%nat ->
  writeRidesToCookie R d
  = Ok (mkDocument (upsert_cookie COOKIE_NAME e (jar d)) true).
Proof.
  intros Hacc Henc He Hlen. unfold writeRidesToCookie.
  rewrite Henc. cbn [bind]. unfold set_cookie. rewrite Hacc.
  rewrite store_written by assumption. reflexivity.
Qed.

(** What [readRidesFromCookie] computes from the value stored under the
    ledger's name, when that value is made of URI characters. *)
Lemma read_stored_value (d : Document) (v : string) :
  cookie_access d = true ->
  jar_wf (jar d) = true -> no_shadow (jar d) = true ->
  lookup_cookie COOKIE_NAME (jar d) = Some v -> uri_text v = true ->
  readRidesFromCookie d
  = try_catch
      (raw <- decodeURIComponent v ;;
       arr <- JSON_parse raw ;;
       Ok (match arr with JArr items => items | _ => [] end))
      (fun _ => Ok []).
Proof.
  intros Hacc Hwf Hsh Hlook Hv. unfold readRidesFromCookie, get_cookie.
  rewrite Hacc. cbn [bind].
  rewrite (stored_cookie_matched (jar d) v Hwf Hsh Hlook Hv).
  now rewrite (value_part_written v Hv).
Qed.

(** Reading a jar in which the ledger's cookie was just stored. *)
Lemma read_stored (R : list json) (cookies : list cookie) (e : string) :
  jar_wf cookies = true -> no_shadow cookies = true -> uri_text e = true ->
  decodeURIComponent e = Ok (JSON_stringify (JArr R)) ->
  JSON_parse (JSON_stringify (JArr R)) = Ok (JArr R) ->
  readRidesFromCookie (mkDocument (upsert_cookie COOKIE_NAME e cookies) true)
  = Ok R.
Proof.
  intros Hwf Hsh He Hdec Hparse.
  rewrite (read_stored_value _ e); cbn [jar cookie_access];
    try reflexivity; try assumption.
  - rewrite Hdec. cbn [bind]. rewrite Hparse. reflexivity.
  - now apply jar_wf_upsert.
  - now apply no_shadow_upsert.
  - apply lookup_upsert.
Qed.

(** C4. For every sequence [R] of rides, once [writeRidesToCookie R] has
    run in a document whose cookies can be used, [readRidesFromCookie]
    returns [R], provided the engine's functions behave on [R] as they are
    documented to (the encoded text is made of URI characters, decoding
    undoes encoding, parsing undoes serialising), the cookie fits the size
    limit, and no other cookie in the jar reads as the ledger's. *)
Theorem persist_then_load (R : list json) (d : Document) (e : string) :
  cookie_access d = true ->
  jar_wf (jar d) = true ->
  no_shadow (jar d) = true ->
  encodeURIComponent (JSON_stringify (JArr R)) = Ok e ->
  uri_text e = true ->
  decodeURIComponent e = Ok (JSON_stringify (JArr R)) ->
  JSON_parse (JSON_stringify (JArr R)) = Ok (JArr R) ->
  (String.length COOKIE_NAME + String.length e <= cookie_limit)%nat ->
  exists d', writeRidesToCookie R d = Ok d'
             /\ readRidesFromCookie d' = Ok R.
Proof.
  intros Hacc Hwf Hsh Henc He Hdec Hparse Hlen.
  eexists. split.
  - now apply (writeRidesToCookie_stores R d e).
  - now apply read_stored.
Qed.

(** C5. [readRidesFromCookie] never raises, and it returns the empty
    sequence when the cookie is missing, when its value fails to decode,
    when the decoded text fails to parse, and when the parsed value is not
    an array. *)
Theorem load_never_raises (d : Document) :
  (exists l, readRidesFromCookie d = Ok l)
  /\ (cookie_missing d \/ decode_fails d \/ parse_fails d \/ not_an_array d ->
      readRidesFromCookie d = Ok []).
Proof.
  unfold readRidesFromCookie, get_cookie, cookie_missing, decode_fails,
    parse_fails, not_an_array, matched_cookie.
  destruct (cookie_access d); cbn [bind try_catch]; [|split; eauto].
  destruct (find_rides_cookie (cookie_string (jar d))) as [m|];
    cbn [try_catch].
  - destruct (decodeURIComponent (value_part m)) as [raw|x] eqn:Hdec;
      cbn [bind try_catch].
    + destruct (JSON_parse raw) as [v|x] eqn:Hparse; cbn [bind try_catch].
      * split; [eauto|].
        intros [H | [(m' & x & H & Hx) | [(m' & raw' & x & H & Hr & Hx)
                                       | (m' & raw' & v' & H & Hr & Hv & Ha)]]];
          try discriminate; injection H as <-; try congruence.
        rewrite Hdec in Hr. injection Hr as <-.
        rewrite Hparse in Hv. injection Hv as <-.
        destruct v; try reflexivity. discriminate.
      * split; eauto.
    + split; eauto.
  - split; eauto.
Qed.

(** A jar that holds no cookie of the ledger's name has the cookie missing. *)
Lemma absent_cookie_missing (d : Document) :
  jar_wf (jar d) = true -> no_shadow (jar d) = true ->
  lookup_cookie COOKIE_NAME (jar d) = None ->
  cookie_missing d.
Proof. intros. now apply no_cookie_no_match. Qed.

(** ** The render that follows [setRides] *)

Lemma filter_result_Forall {A} (P : A -> Prop) (keep : A -> result bool)
  (l kept : list A) :
  Forall P l -> filter_result keep l = Ok kept -> Forall P kept.
Proof.
  revert kept. induction l as [|x l IH]; intros kept Hall H.
  - injection H as <-. constructor.
  - inversion Hall as [|x' l' Hx Hl]; subst. cbn [filter_result] in H.
    destruct (keep x) as [b|]; [|discriminate]. cbn [bind] in H.
    destruct (filter_result keep l) as [rest|]; [|discriminate].
    cbn [bind] in H. injection H as <-.
    destruct b; [constructor; [exact Hx|] |]; now apply IH.
Qed.

Lemma matches_query_record (lower : string -> string) (q : string)
  (r : RideRecord) :
  exists b, matches_query lower q (ride_json r) = Ok b.
Proof.
  unfold matches_query, lower_includes. cbn [ride_json field_of get_field bind].
  cbn. repeat match goal with
              | |- context [if ?b then _ else _] => destruct b
              end; eauto.
Qed.

Lemma filtered_records (lower : string -> string) (q : string)
  (recs : list RideRecord) :
  exists kept, filtered lower q (map ride_json recs) = Ok kept.
Proof.
  unfold filtered. induction recs as [|r recs [kept IH]]; [now exists []|].
  cbn [map filter_result].
  destruct (matches_query_record lower q r) as [b ->]. cbn [bind].
  rewrite IH. cbn [bind]. eauto.
Qed.

(** The ride table renders every list of ride records, whatever the text
    in its filter box. *)
Lemma RideTable_records (lower : string -> string) (q : string)
  (recs : list RideRecord) :
  RideTable lower q (map ride_json recs) = Ok tt.
Proof.
  unfold RideTable. destruct (filtered_records lower q recs) as [kept Hk].
  rewrite Hk. cbn [bind].
  assert (Hall : Forall (fun x => row_renders x = true) kept).
  { apply (filter_result_Forall _ (matches_query lower q)
             (map ride_json recs) kept); [|exact Hk].
    apply Forall_forall. intros x Hx. apply in_map_iff in Hx as (r & <- & _).
    reflexivity. }
  rewrite Forall_forall in Hall.
  now rewrite (proj2 (forallb_forall row_renders kept) Hall).
Qed.

Lemma setRides_commits (render : list json -> result unit)
  (next : list json) (p : Page) :
  render next = Ok tt ->
  setRides render next p
  = mkPage next
      (after_effect (writeRidesToCookie next (document p)) (document p))
      (alerts p) (query p) (mounted p).
Proof. intros H. unfold setRides. now rewrite H. Qed.

Lemma rides_setRides (render : list json -> result unit)
  (next : list json) (p : Page) :
  rides (setRides render next p) = next.
Proof. unfold setRides. now destruct (render next). Qed.

(** Reading the cookie after a [setRides] whose render commits. *)
Lemma setRides_then_read (render : list json -> result unit)
  (next : list json) (p : Page) (e : string) :
  render next = Ok tt ->
  cookie_access (document p) = true ->
  jar_wf (jar (document p)) = true ->
  no_shadow (jar (document p)) = true ->
  encodeURIComponent (JSON_stringify (JArr next)) = Ok e ->
  uri_text e = true ->
  decodeURIComponent e = Ok (JSON_stringify (JArr next)) ->
  JSON_parse (JSON_stringify (JArr next)) = Ok (JArr next) ->
  (String.length COOKIE_NAME + String.length e <= cookie_limit)%nat ->
  readRidesFromCookie (document (setRides render next p)) = Ok next.
Proof.
  intros Hrender Hacc Hwf Hsh Henc He Hdec Hparse Hlen.
  rewrite (setRides_commits render next p Hrender). cbn [document].
  rewrite (writeRidesToCookie_stores next (document p) e Hacc Henc He Hlen).
  cbn [after_effect]. now apply read_stored.
Qed.


(** A file that does not parse is reported with the parser's message and
    changes nothing else. *)
Lemma importRides_parse_error (text : string) (p : Page) (x : exn) :
  JSON_parse text = Throw x ->
  importRides (Some text) p = Ok (alert ("Invalid JSON: " ++ exn_message x) p).
Proof. intros H. unfold importRides. now rewrite H. Qed.

(** ** Deleting a ride *)

Lemma id_differs_ride (id : string) (r : RideRecord) :
  id_differs id (ride_json r) = Ok (negb (ride_id r =? id)%string).
Proof. reflexivity. Qed.

Lemma filter_rides (id : string) (recs : list RideRecord) :
  filter_result (id_differs id) (map ride_json recs)
  = Ok (map ride_json
          (filter (fun r => negb (ride_id r =? id)%string) recs)).
Proof.
  induction recs as [|r recs IH]; [reflexivity|].
  cbn [map filter_result filter]. rewrite id_differs_ride. cbn [bind].
  rewrite IH. cbn [bind].
  now destruct (negb (ride_id r =? id)%string).
Qed.

Lemma filter_keeps_others (id : string) (recs : list RideRecord) :
  (forall x, In x recs -> ride_id x <> id) ->
  filter (fun r => negb (ride_id r =? id)%string) recs = recs.
Proof.
  induction recs as [|r recs IH]; intros H; [reflexivity|]. simpl.
  assert (Hr : (ride_id r =? id)%string = false).
  { apply String.eqb_neq, H. now left. }
  rewrite Hr. simpl. f_equal. apply IH. intros x Hx. apply H. now right.
Qed.

(** Whatever the identifiers are, a deletion keeps exactly the rides with
    another identifier, in their order. *)
Lemma deleteRide_filters (id : string) (p : Page) (recs : list RideRecord) :
  rides p = map ride_json recs ->
  deleteRide id p
  = Ok (setRides (StatsPage (query p))
          (map ride_json (filter (fun r => negb (ride_id r =? id)%string) recs))
          p).
Proof.
  intros H. unfold deleteRide. now rewrite H, filter_rides.
Qed.

(** After a deletion the cookie reads as the remainder, where the engine's
    functions behave on the remainder as documented and the cookie fits. *)
Lemma deleteRide_then_load (id : string) (p : Page) (recs : list RideRecord)
  (e : string) :
  let rest := map ride_json
                (filter (fun r => negb (ride_id r =? id)%string) recs) in
  rides p = map ride_json recs ->
  cookie_access (document p) = true ->
  jar_wf (jar (document p)) = true ->
  no_shadow (jar (document p)) = true ->
  encodeURIComponent (JSON_stringify (JArr rest)) = Ok e ->
  uri_text e = true ->
  decodeURIComponent e = Ok (JSON_stringify (JArr rest)) ->
  JSON_parse (JSON_stringify (JArr rest)) = Ok (JArr rest) ->
  (String.length COOKIE_NAME + String.length e <= cookie_limit)%nat ->
  exists p', deleteRide id p = Ok p'
             /\ readRidesFromCookie (document p') = Ok rest.
Proof.
  intros rest Hrides Hacc Hwf Hsh Henc He Hdec Hparse Hlen.
  rewrite (deleteRide_filters id p recs Hrides). fold rest.
  eexists. split; [reflexivity|].
  apply (setRides_then_read _ rest p e); try assumption.
  apply RideTable_records.
Qed.

(** C7. When the ledger holds one ride with the identifier [id], with any
    rides before and after it, [deleteRide id] leaves the rides before and
    after, unchanged and in their order, the page stays up, and the
    remainder is persisted: read again, the cookie gives that remainder,
    wherever the cookie can hold it (cookies can be used, the encoded
    remainder fits the size limit, the built-in functions round-trip on it,
    and no other cookie reads as the ledger's). *)
Theorem deleteRide_removes_the_record (p : Page)
  (before after : list RideRecord) (r : RideRecord) :
  let rest := map ride_json (before ++ after) in
  rides p = map ride_json (before ++ r :: after) ->
  (forall x, In x (before ++ after) -> ride_id x <> ride_id r) ->
  exists p', deleteRide (ride_id r) p = Ok p'
             /\ rides p' = rest
             /\ mounted p' = mounted p
             /\ forall e,
                  cookie_access (document p) = true ->
                  jar_wf (jar (document p)) = true ->
                  no_shadow (jar (document p)) = true ->
                  encodeURIComponent (JSON_stringify (JArr rest)) = Ok e ->
                  uri_text e = true ->
                  decodeURIComponent e = Ok (JSON_stringify (JArr rest)) ->
                  JSON_parse (JSON_stringify (JArr rest)) = Ok (JArr rest) ->
                  (String.length COOKIE_NAME + String.length e
                   <= cookie_limit)%nat ->
                  readRidesFromCookie (document p') = Ok rest.
Proof.
  intros rest Hrides Huniq.
  rewrite (deleteRide_filters _ _ _ Hrides).
  assert (Hf : filter (fun x => negb (ride_id x =? ride_id r)%string)
                 (before ++ r :: after) = (before ++ after)%list).
  { rewrite filter_app. cbn [filter]. rewrite String.eqb_refl. cbn [negb].
    rewrite <- filter_app. now apply filter_keeps_others. }
  rewrite Hf. fold rest.
  assert (Hrender : StatsPage (query p) rest = Ok tt)
    by apply RideTable_records.
  eexists. split; [reflexivity|].
  rewrite (setRides_commits _ rest p Hrender).
  split; [reflexivity|]. split; [reflexivity|].
  intros e Hacc Hwf Hsh Henc He Hdec Hjson Hlen. cbn [document].
  rewrite (writeRidesToCookie_stores rest (document p) e Hacc Henc He Hlen).
  cbn [after_effect]. now apply read_stored.
Qed.

(* ================================================================== *)
(** * Theorems: the dataset store                                      *)
(* ================================================================== *)

Lemma loadDatasets_never_raises (ls : LocalStorage) :
  exists v, loadDatasets ls = Ok v.
Proof.
  unfold loadDatasets.
  destruct (getItem DATA_KEY ls) as [[text|]|x]; cbn [bind try_catch]; eauto.
  destruct (text =? "")%string; cbn [try_catch]; eauto.
  destruct (JSON_parse text); cbn [try_catch]; eauto.
Qed.

(** C8, on the code.  [saveDatasets] has no handler around [setItem]: with
    storage full it raises a QuotaExceededError, with storage disabled a
    SecurityError, and so does [getDatasets] on its way through
    [prefillDatasets], where the seed was to be the fallback. *)
Theorem saveDatasets_raises (ds : json) :
  saveDatasets ds storage_full = Throw quota_exceeded
  /\ saveDatasets ds storage_disabled = Throw security_error
  /\ getDatasets storage_disabled = Throw security_error.
Proof.
  unfold saveDatasets, setItem. repeat split.
Qed.

(* ================================================================== *)
(** * Theorems: the edit handlers and the old snapshot                 *)
(* ================================================================== *)

Lemma extends_refl (h : heap) : extends h h.
Proof. exists []. now rewrite app_nil_r. Qed.

Lemma extends_alloc (h0 h : heap) (c : cell) :
  extends h0 h -> extends h0 (h ++ [c])%list.
Proof. intros [ext ->]. exists (ext ++ [c])%list. now rewrite app_assoc. Qed.

Lemma update_nth_app_r {A} (l1 l2 : list A) (i : nat) (x : A) :
  (List.length l1 <= i)%nat ->
  update_nth i x (l1 ++ l2)%list = (l1 ++ update_nth (i - List.length l1) x l2)%list.
Proof.
  revert i. induction l1 as [|y l1 IH]; intros i Hi; simpl.
  - now rewrite Nat.sub_0_r.
  - destruct i as [|i]; simpl in *; [lia|]. rewrite IH by lia. reflexivity.
Qed.

Lemma keeps_ret {A} (h0 : heap) (a : A) : keeps h0 (hret a) anything.
Proof. intros h a' h' He H. injection H as <- <-. now split. Qed.

Lemma keeps_bind {A B} (h0 : heap) (c : H A) (k : A -> H B)
  (Q : A -> Prop) (R : B -> Prop) :
  keeps h0 c Q -> (forall a, Q a -> keeps h0 (k a) R) ->
  keeps h0 (hbind c k) R.
Proof.
  intros Hc Hk h b h' He H. unfold hbind in H.
  destruct (c h) as [[a h1]|x] eqn:E; [|discriminate].
  destruct (Hc h a h1 He E) as [He1 HQ].
  exact (Hk a HQ h1 b h' He1 H).
Qed.

Lemma keeps_weaken {A} (h0 : heap) (c : H A) (Q : A -> Prop) :
  keeps h0 c Q -> keeps h0 c anything.
Proof. intros Hc h a h' He H. destruct (Hc h a h' He H). now split. Qed.

Lemma keeps_alloc (h0 : heap) (c : cell) : keeps h0 (alloc c) (fresh h0).
Proof.
  intros h a h' He H. injection H as <- <-. split.
  - now apply extends_alloc.
  - destruct He as [ext ->]. eexists. split; [reflexivity|].
    rewrite length_app. lia.
Qed.

Lemma keeps_get_prop (h0 : heap) (k : string) (v : value) :
  keeps h0 (get_prop k v) anything.
Proof.
  intros h a h' He H. unfold get_prop in H.
  destruct v as [| | |l]; try discriminate;
    try (injection H as <- <-; now split).
  destruct (nth_error h l) as [[|]|]; injection H as <- <-; now split.
Qed.

Lemma keeps_index (h0 : heap) (i : nat) (v : value) :
  keeps h0 (index i v) anything.
Proof.
  intros h a h' He H. unfold index in H.
  destruct v as [| | |l]; try discriminate;
    try (injection H as <- <-; now split).
  destruct (nth_error h l) as [[|]|]; injection H as <- <-; now split.
Qed.

Lemma keeps_elems_of (h0 : heap) (v : value) :
  keeps h0 (elems_of v) anything.
Proof.
  intros h a h' He H. unfold elems_of in H.
  destruct v as [| | |l]; try discriminate.
  destruct (nth_error h l) as [[|]|]; try discriminate.
  injection H as <- <-. now split.
Qed.

Lemma keeps_props_of (h0 : heap) (v : value) :
  keeps h0 (props_of v) anything.
Proof.
  intros h a h' He H. unfold props_of in H.
  destruct v as [| | |l]; try (injection H as <- <-; now split).
  destruct (nth_error h l) as [[|]|]; injection H as <- <-; now split.
Qed.

Lemma keeps_copy_object (h0 : heap) (v : value) :
  keeps h0 (copy_object v) (fresh h0).
Proof.
  unfold copy_object. eapply keeps_bind; [apply keeps_props_of|].
  intros; apply keeps_alloc.
Qed.

Lemma keeps_spread_with (h0 : heap) (v : value) (k : string) (x : value) :
  keeps h0 (spread_with v k x) (fresh h0).
Proof.
  unfold spread_with. eapply keeps_bind; [apply keeps_props_of|].
  intros; apply keeps_alloc.
Qed.

(** An assignment to a property of a fresh object leaves [h0] alone. *)
Lemma keeps_put_prop_fresh (h0 : heap) (o : value) (k : string) (x : value) :
  fresh h0 o -> keeps h0 (put_prop o k x) anything.
Proof.
  intros (l & -> & Hl) h a h' [ext ->] H. unfold put_prop in H.
  destruct (nth_error (h0 ++ ext)%list l) as [[props|]|];
    injection H as <- <-; split; try exact I; try (now exists ext).
  rewrite update_nth_app_r by exact Hl. eexists. reflexivity.
Qed.

Lemma keeps_mapi_H {A B} (h0 : heap) (f : nat -> A -> H B) (l : list A) :
  (forall i x, keeps h0 (f i x) anything) ->
  forall i, keeps h0 (mapi_H f i l) anything.
Proof.
  intros Hf. induction l as [|x l IH]; intros i; cbn [mapi_H].
  - apply keeps_ret.
  - eapply keeps_bind; [apply Hf|]. intros y _.
    eapply keeps_bind; [apply IH|]. intros ys _. apply keeps_ret.
Qed.

Create HintDb frame.

#[local] Hint Resolve keeps_ret keeps_get_prop keeps_index keeps_elems_of
  keeps_props_of keeps_alloc keeps_copy_object keeps_spread_with : frame.

(** One step of a handler: a primitive, then the rest. *)
Ltac frame_step :=
  first
    [ solve [eauto with frame]
    | eapply keeps_weaken; solve [eauto with frame]
    | eapply keeps_bind; [solve [eauto with frame] | intros ? ?] ].

Lemma keeps_addStock (h0 : heap) (datasets : value) :
  keeps h0 (addStock datasets) anything.
Proof. unfold addStock. repeat frame_step. Qed.

Lemma keeps_addLine (h0 : heap) (datasets : value) :
  keeps h0 (addLine datasets) anything.
Proof. unfold addLine. repeat frame_step. Qed.

Lemma keeps_updateStock (h0 : heap) (idx : nat) (field : string)
  (x datasets : value) :
  keeps h0 (updateStock idx field x datasets) anything.
Proof.
  unfold updateStock.
  eapply keeps_bind; [apply keeps_copy_object | intros next Hnext].
  do 2 frame_step.
  eapply keeps_bind.
  { apply keeps_mapi_H. intros i s. destruct (Nat.eqb i idx); repeat frame_step. }
  intros news _. frame_step.
  eapply keeps_bind; [now apply keeps_put_prop_fresh | intros; apply keeps_ret].
Qed.

Lemma keeps_updateStockRange (h0 : heap) (idx rIdx which : nat)
  (text : string) (datasets : value) :
  keeps h0 (updateStockRange idx rIdx which text datasets) anything.
Proof.
  unfold updateStockRange.
  eapply keeps_bind; [apply keeps_copy_object | intros next Hnext].
  do 2 frame_step.
  eapply keeps_bind.
  { apply keeps_mapi_H. intros i s.
    destruct (negb (Nat.eqb i idx)); [apply keeps_ret|].
    do 2 frame_step.
    eapply keeps_bind.
    { apply keeps_mapi_H. intros j r.
      destruct (Nat.eqb j rIdx); [|apply keeps_ret].
      eapply keeps_bind.
      { destruct (Nat.eqb which 0); [apply keeps_ret | apply keeps_index]. }
      intros lo _. eapply keeps_bind.
      { destruct (Nat.eqb which 1); [apply keeps_ret | apply keeps_index]. }
      intros hi _. frame_step. }
    intros rl' _. repeat frame_step. }
  intros news _. frame_step.
  eapply keeps_bind; [now apply keeps_put_prop_fresh | intros; apply keeps_ret].
Qed.

Lemma keeps_removeStock (h0 : heap) (idx : nat) (datasets : value) :
  keeps h0 (removeStock idx datasets) anything.
Proof.
  unfold removeStock.
  eapply keeps_bind; [apply keeps_copy_object | intros next Hnext].
  do 3 frame_step.
  eapply keeps_bind; [now apply keeps_put_prop_fresh | intros; apply keeps_ret].
Qed.

Lemma keeps_updateLine (h0 : heap) (idx : nat) (field : string)
  (x datasets : value) :
  keeps h0 (updateLine idx field x datasets) anything.
Proof.
  unfold updateLine.
  eapply keeps_bind; [apply keeps_copy_object | intros next Hnext].
  do 2 frame_step.
  eapply keeps_bind.
  { apply keeps_mapi_H. intros i s. destruct (Nat.eqb i idx); repeat frame_step. }
  intros news _. frame_step.
  eapply keeps_bind; [now apply keeps_put_prop_fresh | intros; apply keeps_ret].
Qed.

Lemma keeps_removeLine (h0 : heap) (idx : nat) (datasets : value) :
  keeps h0 (removeLine idx datasets) anything.
Proof.
  unfold removeLine.
  eapply keeps_bind; [apply keeps_copy_object | intros next Hnext].
  do 3 frame_step.
  eapply keeps_bind; [now apply keeps_put_prop_fresh | intros; apply keeps_ret].
Qed.

(** ** Reading the old snapshot after an edit *)

Lemma all_some_map_impl {A B} (f g : A -> option B) (l : list A) (ys : list B) :
  (forall x y, f x = Some y -> g x = Some y) ->
  all_some (map f l) = Some ys -> all_some (map g l) = Some ys.
Proof.
  intros Hfg. revert ys. induction l as [|x l IH]; intros ys; simpl; [tauto|].
  destruct (f x) as [y|] eqn:Ex; [|discriminate].
  rewrite (Hfg x y Ex).
  destruct (all_some (map f l)) as [ys'|]; [|discriminate].
  now rewrite (IH ys' eq_refl).
Qed.

Lemma read_extends (fuel : nat) (h ext : heap) (v : value) (t : tree) :
  read fuel h v = Some t -> read fuel (h ++ ext)%list v = Some t.
Proof.
  revert v t. induction fuel as [|fuel IH]; intros v t;
    destruct v as [| | |l]; simpl; try tauto; try discriminate.
  destruct (nth_error h l) as [c|] eqn:El; [|discriminate].
  rewrite nth_error_app1 by (apply nth_error_Some; congruence).
  rewrite El. destruct c as [props|elems].
  - destruct (all_some (map (fun kv => option_map (pair (fst kv))
                                        (read fuel h (snd kv))) props))
      as [fs|] eqn:E; [|discriminate].
    intros Ht. erewrite all_some_map_impl; [exact Ht | | exact E].
    intros kv y. simpl.
    destruct (read fuel h (snd kv)) as [t'|] eqn:Er; [|discriminate].
    now rewrite (IH _ _ Er).
  - destruct (all_some (map (read fuel h) elems)) as [ts|] eqn:E; [|discriminate].
    intros Ht. erewrite all_some_map_impl; [exact Ht | | exact E].
    intros x y. apply IH.
Qed.

(** The seven handlers that copy: whatever structure the old snapshot
    reference stood for before the edit, it stands for after it. *)
Theorem copying_edits_keep_old_snapshot (h h' : heap) (datasets next : value)
  (idx rIdx which : nat) (field text : string) (x : value) :
  addStock datasets h = Ok (next, h')
  \/ addLine datasets h = Ok (next, h')
  \/ updateStock idx field x datasets h = Ok (next, h')
  \/ updateStockRange idx rIdx which text datasets h = Ok (next, h')
  \/ removeStock idx datasets h = Ok (next, h')
  \/ updateLine idx field x datasets h = Ok (next, h')
  \/ removeLine idx datasets h = Ok (next, h') ->
  extends h h'
  /\ forall fuel t, read fuel h datasets = Some t ->
                    read fuel h' datasets = Some t.
Proof.
  intros Hrun.
  assert (He : extends h h').
  { destruct Hrun as [H|[H|[H|[H|[H|[H|H]]]]]].
    - exact (proj1 (keeps_addStock h datasets h next h' (extends_refl h) H)).
    - exact (proj1 (keeps_addLine h datasets h next h' (extends_refl h) H)).
    - exact (proj1 (keeps_updateStock h idx field x datasets h next h'
                      (extends_refl h) H)).
    - exact (proj1 (keeps_updateStockRange h idx rIdx which text datasets
                      h next h' (extends_refl h) H)).
    - exact (proj1 (keeps_removeStock h idx datasets h next h'
                      (extends_refl h) H)).
    - exact (proj1 (keeps_updateLine h idx field x datasets h next h'
                      (extends_refl h) H)).
    - exact (proj1 (keeps_removeLine h idx datasets h next h'
                      (extends_refl h) H)). }
  split; [exact He|]. destruct He as [ext ->].
  intros fuel t. apply read_extends.
Qed.

(** C3, on the code.  [addRange] copies the snapshot object only: the entry
    is the one that the old snapshot refers to, and the assignment to its
    [ranges] shows through the old reference.  Before the call the old
    snapshot has the one range [[1301, 1390]]; after it, read through the
    same reference, it has [[0, 0]] as well. *)
Theorem addRange_changes_old_snapshot :
  exists next h',
    addRange 0 sample_datasets sample_heap = Ok (next, h')
    /\ read 5 sample_heap sample_datasets
       = Some (sample_tree [range_tree 1301 1390])
    /\ read 5 h' sample_datasets
       = Some (sample_tree [range_tree 1301 1390; range_tree 0 0])
    /\ ~ extends sample_heap h'.
Proof.
  eexists. eexists. split; [reflexivity|]. split; [reflexivity|].
  split; [reflexivity|].
  intros [ext Hext]. vm_compute in Hext. discriminate Hext.
Qed.

(* ================================================================== *)
(** * More theorems: numbers and the classifier                        *)
(* ================================================================== *)

Lemma trimStart_first_plain (c : ascii) (r : string) :
  plain c = true -> trimStart (String c r) = String c r.
Proof.
  intros Hc. destruct (plain_not_ws c Hc) as (H1 & H2 & _ & H3 & _).
  cbn [trimStart]. rewrite H1. destruct r as [|b r2]; [reflexivity|].
  rewrite H2. destruct r2 as [|d r3]; [reflexivity|]. now rewrite H3.
Qed.

Lemma digit_facts (c : ascii) :
  is_digit c = true ->
  plain c = true /\ Ascii.eqb c "-" = false /\ Ascii.eqb c "+" = false.
Proof.
  destruct c as [[] [] [] [] [] [] [] []]; vm_compute; intros H;
    try discriminate H; repeat split.
Qed.

(** A string that starts with a digit parses to the value of its digits. *)
Lemma parseInt_digits (c : ascii) (r : string) :
  is_digit c = true ->
  parseInt (String c r) = to_double (digits_value 0 (String c r)).
Proof.
  intros Hc. destruct (digit_facts c Hc) as (Hp & _ & _).
  unfold parseInt. rewrite (trimStart_first_plain c r Hp).
  destruct c as [[] [] [] [] [] [] [] []]; try discriminate Hc;
    cbv beta iota zeta; (cbn [digit_of byte_of]; rewrite Z.mul_1_l; reflexivity).
Qed.

Lemma parseInt_minus_digits (c : ascii) (r : string) :
  is_digit c = true ->
  parseInt (String "-" (String c r))
  = to_double (- digits_value 0 (String c r)).
Proof.
  intros Hc. unfold parseInt.
  assert (Ht : trimStart (String "-" (String c r)) = String "-" (String c r)).
  { apply trimStart_first_plain. reflexivity. }
  rewrite Ht. cbv beta iota zeta. unfold is_digit in Hc.
  destruct (digit_of c); [|discriminate].
  f_equal; lia.
Qed.

Lemma digits_value_suffix (d t : string) (acc : Z) :
  all_digits d = true -> starts_with_digit t = false ->
  digits_value acc (d ++ t) = digits_value acc d.
Proof.
  revert acc. induction d as [|c d IH]; intros acc Hd Ht.
  - destruct t as [|c r]; [reflexivity|]. simpl in *.
    unfold is_digit in Ht. now destruct (digit_of c).
  - simpl in *. apply andb_true_iff in Hd as [Hc Hd].
    unfold is_digit in Hc. destruct (digit_of c); [|discriminate].
    now apply IH.
Qed.

(** X1. [parseInt] reads the digits at the front of the string and ignores
    what follows them: a car number followed by any text that does not start
    with a digit is classified as the car number alone. *)
Theorem detect_ignores_suffix (digits rest : string)
  (T : list RollingStockEntry) :
  digits <> "" -> all_digits digits = true -> starts_with_digit rest = false ->
  detectModelFromNumber (digits ++ rest) T = detectModelFromNumber digits T.
Proof.
  intros Hne Hd Ht. unfold detectModelFromNumber.
  destruct digits as [|c d]; [contradiction|].
  simpl in Hd. apply andb_true_iff in Hd as [Hc Hd].
  change (String c d ++ rest)%string with (String c (d ++ rest)).
  rewrite !(parseInt_digits c) by exact Hc.
  change (String c (d ++ rest)) with (String c d ++ rest)%string.
  rewrite digits_value_suffix; [reflexivity | | exact Ht].
  simpl. now rewrite Hc.
Qed.

(** ** [String(n)] and [parseInt] *)

Lemma digits_value_uint (d : Decimal.uint) (acc : Z) :
  digits_value acc (DecimalString.NilEmpty.string_of_uint d) = uint_value d acc.
Proof.
  revert acc. induction d; intros acc; simpl; try reflexivity; apply IHd.
Qed.

Lemma of_uint_acc_value (d : Decimal.uint) (p : positive) :
  Zpos (Pos.of_uint_acc d p) = uint_value d (Zpos p).
Proof.
  revert p. induction d; intros p;
    cbn [Pos.of_uint_acc uint_value]; try reflexivity;
    rewrite IHd; f_equal; lia.
Qed.

Lemma of_uint_value (d : Decimal.uint) :
  Z.of_N (Pos.of_uint d) = uint_value d 0.
Proof.
  induction d; cbn [Pos.of_uint uint_value Z.of_N];
    try reflexivity; try exact IHd; apply of_uint_acc_value.
Qed.

Lemma string_of_uint_digits (d : Decimal.uint) :
  all_digits (DecimalString.NilEmpty.string_of_uint d) = true.
Proof. induction d; simpl; try reflexivity; exact IHd. Qed.

Lemma parseInt_to_uint (p : positive) :
  exists c r,
    DecimalString.NilZero.string_of_uint (Pos.to_uint p) = String c r
    /\ is_digit c = true
    /\ digits_value 0 (String c r) = Zpos p.
Proof.
  pose proof (DecimalPos.Unsigned.to_uint_nonnil p) as Hnil.
  pose proof (DecimalPos.Unsigned.of_to p) as Hof.
  pose proof (string_of_uint_digits (Pos.to_uint p)) as Hd.
  assert (Hs : DecimalString.NilZero.string_of_uint (Pos.to_uint p)
               = DecimalString.NilEmpty.string_of_uint (Pos.to_uint p)).
  { destruct (Pos.to_uint p); [contradiction | reflexivity..]. }
  rewrite Hs.
  assert (Hv : digits_value 0 (DecimalString.NilEmpty.string_of_uint (Pos.to_uint p))
               = Zpos p).
  { rewrite digits_value_uint, <- of_uint_value, Hof. reflexivity. }
  destruct (DecimalString.NilEmpty.string_of_uint (Pos.to_uint p)) as [|c r] eqn:E.
  - destruct (Pos.to_uint p); try contradiction; discriminate E.
  - exists c, r. simpl in Hd. apply andb_true_iff in Hd as [Hc _].
    repeat split; assumption.
Qed.

(** From 2^53 on, the double for an integer is at least 2^53 in magnitude. *)
Lemma to_double_large (a x : Z) :
  2 ^ 53 <= Z.abs a -> to_double a = Int x -> 2 ^ 53 <= Z.abs x.
Proof.
  intros Ha. unfold to_double. cbv zeta.
  destruct (Z.ltb_spec (Z.abs a) (2 ^ 53)) as [Hlt|_]; [lia|].
  set (e := Z.log2 (Z.abs a)).
  assert (Hpos : 0 < Z.abs a) by lia.
  assert (He : 53 <= e) by (apply Z.log2_le_pow2; [exact Hpos | exact Ha]).
  pose proof (Z.log2_spec (Z.abs a) Hpos) as [Hlo _]. fold e in Hlo.
  set (ulp := 2 ^ (e - 52)).
  assert (Hulp : 0 < ulp) by (apply Z.pow_pos_nonneg; lia).
  assert (Hsplit : 2 ^ e = 2 ^ 52 * ulp).
  { unfold ulp. rewrite <- Z.pow_add_r by lia. f_equal. lia. }
  assert (Hq : 2 ^ 52 <= Z.abs a / ulp).
  { apply Z.div_le_lower_bound; [exact Hulp|]. lia. }
  set (q := Z.abs a / ulp) in *.
  match goal with |- context [(if ?up then q + 1 else q) * ulp] =>
    set (q' := if up then q + 1 else q);
    assert (Hq' : q <= q') by (unfold q'; destruct up; lia)
  end.
  assert (Hm : 2 ^ 53 <= q' * ulp).
  { assert (2 ^ 53 <= 2 ^ e) by (apply Z.pow_le_mono_r; lia). nia. }
  destruct (2 ^ 1024 <=? q' * ulp); [discriminate|].
  intros H. injection H as <-.
  destruct a as [|a|a]; cbn [Z.sgn Z.abs] in *; lia.
Qed.

Lemma shortest_reads (fuel : nat) (k n v : Z) :
  rounds_to v v = true -> rounds_to (shortest fuel k n v) v = true.
Proof.
  intros Hv. revert k. induction fuel as [|fuel IH]; intros k; [exact Hv|].
  cbn [shortest]. cbv zeta.
  destruct (rounds_to (v / 10 ^ (n - k) * 10 ^ (n - k)) v) eqn:Hlo,
           (rounds_to (v / 10 ^ (n - k) * 10 ^ (n - k) + 10 ^ (n - k)) v) eqn:Hhi;
    try assumption; [|apply IH].
  now destruct (_ <=? _).
Qed.

(** An integer below 2^53 is printed with all its digits. *)
Lemma shortest_digits_exact (v : Z) :
  Z.abs v < 2 ^ 53 -> shortest_digits v = v.
Proof.
  intros Hv. unfold shortest_digits.
  pose proof (shortest_reads 17 1 (Z.of_nat (String.length (decimal v))) v) as H.
  set (m := shortest 17 1 (Z.of_nat (String.length (decimal v))) v) in *.
  unfold rounds_to in H. rewrite (to_double_exact v Hv), Z.eqb_refl in H.
  specialize (H eq_refl).
  destruct (to_double m) as [|x|] eqn:Hm; try discriminate.
  apply Z.eqb_eq in H. subst x.
  destruct (Z.lt_ge_cases (Z.abs m) (2 ^ 53)) as [Hsmall|Hbig].
  - rewrite (to_double_exact m Hsmall) in Hm. now injection Hm.
  - pose proof (to_double_large m v Hbig Hm). lia.
Qed.

(** X2. Reading back what was printed: for every integer [n] of magnitude
    below 2^53, [parseInt(String(n), 10)] is [n], so the printed form of a
    car number is classified as that number.  (From 10^21 on the printed
    form has an exponent, and [parseInt] reads the digits before the
    point.) *)
Theorem parseInt_to_string (n : Z) :
  Z.abs n < 2 ^ 53 ->
  parseInt (to_string (Int n)) = Int n
  /\ forall T, FirstMatch (Int n) T (detectModelFromNumber (to_string (Int n)) T).
Proof.
  intros Hn.
  assert (Hparse : parseInt (to_string (Int n)) = Int n).
  { unfold to_string. destruct n as [|p|p]; [reflexivity|..];
      cbn [Z.eqb Z.ltb Z.compare Z.abs];
      (rewrite shortest_digits_exact by exact Hn);
      (assert (Hsmall : (Zpos p <? 10 ^ 21) = true)
         by (apply Z.ltb_lt; cbn [Z.abs] in Hn;
             assert (2 ^ 53 < 10 ^ 21) by reflexivity; lia));
      rewrite Hsmall;
      destruct (parseInt_to_uint p) as (c & r & Hs & Hc & Hv);
      unfold decimal; cbn [Z.to_int DecimalString.NilZero.string_of_int];
      rewrite Hs.
    - cbn [append]. rewrite (parseInt_digits c r Hc), Hv.
      now apply to_double_exact.
    - cbn [append]. rewrite (parseInt_minus_digits c r Hc), Hv.
      now apply to_double_exact. }
  split; [exact Hparse|]. intros T. unfold detectModelFromNumber.
  rewrite Hparse. apply scan_entries_first_match.
Qed.

(** ** Tables put end to end *)

Lemma scan_entries_app (n : number) (T T' : list RollingStockEntry) :
  scan_entries n (T ++ T')
  = match scan_entries n T with
    | Some r => Some r
    | None => scan_entries n T'
    end.
Proof.
  induction T as [|e T IH]; simpl; [reflexivity|].
  now destruct (scan_ranges n (ranges e)).
Qed.

(** X3. Entries added after a table never change a match that the table
    gives: on [T ++ T'] the answer is the answer on [T] when there is one,
    and the answer on [T'] otherwise.  A model added by [addStock], which
    appends, cannot take a car number away from an existing model. *)
Theorem detect_append (numStr : string) (T T' : list RollingStockEntry) :
  detectModelFromNumber numStr (T ++ T')
  = match detectModelFromNumber numStr T with
    | Some r => Some r
    | None => detectModelFromNumber numStr T'
    end.
Proof.
  unfold detectModelFromNumber.
  destruct (isNaN (parseInt numStr)); [reflexivity|].
  apply scan_entries_app.
Qed.

(* ================================================================== *)
(** * More theorems: logging, the ledger and the store                 *)
(* ================================================================== *)


Lemma or_default_nonempty (s fallback : string) :
  fallback <> "" -> or_default s fallback <> "".
Proof.
  intros Hf. unfold or_default. destruct (String.eqb_spec s ""); assumption.
Qed.

(** X4. [handleDetect] logs nothing exactly when the car number is empty or
    no line is selected.  A ride it logs never has an empty model or
    division: an unclassified number, or an entry whose name was edited to
    the empty string, is logged as "Unknown" and "?".  The line and its
    colour are copied from the selected line. *)
Theorem handleDetect_ride (trainNumber : string)
  (selectedLine : option LineEntry) (datasets : Snapshot) (uuid now : string) :
  (handleDetect trainNumber selectedLine datasets uuid now = None
   <-> trainNumber = "" \/ selectedLine = None)
  /\ forall r, handleDetect trainNumber selectedLine datasets uuid now = Some r ->
       ride_model r <> "" /\ ride_division r <> ""
       /\ (detectModelFromNumber trainNumber (rollingStock datasets) = None ->
           ride_model r = "Unknown" /\ ride_division r = "?")
       /\ (exists l, selectedLine = Some l /\ ride_line r = line_id l
                     /\ ride_lineColor r = line_color l)
       /\ ride_id r = uuid /\ ride_timestamp r = now.
Proof.
  unfold handleDetect. split.
  - destruct (String.eqb_spec trainNumber "") as [->|Hne].
    + split; [now left | reflexivity].
    + destruct selectedLine as [l|].
      * split; [discriminate | intros [H|H]; [contradiction | discriminate]].
      * split; [now right | reflexivity].
  - intros r. destruct (trainNumber =? "")%string; [discriminate|].
    destruct selectedLine as [l|]; [|discriminate].
    intros H. injection H as <-. cbn.
    destruct (detectModelFromNumber trainNumber (rollingStock datasets)) as [f|].
    + repeat split; try (apply or_default_nonempty; discriminate);
        try discriminate. exists l. repeat split.
    + repeat split; try discriminate. exists l. repeat split.
Qed.

(** X5. [writeRidesToCookie] never raises, and when the cookie cannot be
    assigned or the encoding throws it leaves the document as it was. *)
Theorem writeRidesToCookie_swallows (R : list json) (d : Document) :
  (exists d', writeRidesToCookie R d = Ok d')
  /\ (cookie_access d = false
      \/ (exists x, encodeURIComponent (JSON_stringify (JArr R)) = Throw x) ->
      writeRidesToCookie R d = Ok d).
Proof.
  split; [apply writeRidesToCookie_never_raises|].
  unfold writeRidesToCookie, set_cookie.
  intros [Hacc | [x Hx]].
  - destruct (encodeURIComponent (JSON_stringify (JArr R))); cbn [bind try_catch];
      [rewrite Hacc|]; reflexivity.
  - rewrite Hx. reflexivity.
Qed.

(** X6. [onAddRide] makes the list the component's own rides followed by
    the new ride, and writes that list over whatever the cookie held: read
    back, the cookie gives exactly that list (where the engine's functions
    behave on it as documented and the cookie fits). *)
Theorem onAddRide_overwrites (ride : json) (p : Page) (e : string) :
  let L := (rides p ++ [ride])%list in
  cookie_access (document p) = true ->
  jar_wf (jar (document p)) = true ->
  no_shadow (jar (document p)) = true ->
  encodeURIComponent (JSON_stringify (JArr L)) = Ok e ->
  uri_text e = true ->
  decodeURIComponent e = Ok (JSON_stringify (JArr L)) ->
  JSON_parse (JSON_stringify (JArr L)) = Ok (JArr L) ->
  (String.length COOKIE_NAME + String.length e <= cookie_limit)%nat ->
  rides (onAddRide ride p) = L
  /\ readRidesFromCookie (document (onAddRide ride p)) = Ok L.
Proof.
  intros L Hacc Hwf Hsh Henc He Hdec Hparse Hlen. split; [reflexivity|].
  unfold onAddRide. now apply (setRides_then_read App L p e).
Qed.

(** X7. [clearRides] changes nothing when the user declines; when the user
    confirms, the list is empty and the cookie reads as the empty list. *)
Theorem clearRides_confirmed (p : Page) (e : string) :
  clearRides false p = p
  /\ rides (clearRides true p) = []
  /\ (cookie_access (document p) = true ->
      jar_wf (jar (document p)) = true ->
      no_shadow (jar (document p)) = true ->
      encodeURIComponent (JSON_stringify (JArr [])) = Ok e ->
      uri_text e = true ->
      decodeURIComponent e = Ok (JSON_stringify (JArr [])) ->
      JSON_parse (JSON_stringify (JArr [])) = Ok (JArr []) ->
      (String.length COOKIE_NAME + String.length e <= cookie_limit)%nat ->
      readRidesFromCookie (document (clearRides true p)) = Ok []).
Proof.
  split; [reflexivity|]. split; [reflexivity|].
  intros. unfold clearRides.
  now apply (setRides_then_read (StatsPage (query p)) [] p e).
Qed.

(** X8. Deleting an identifier that no ride has leaves the list of rides as
    it is. *)
Theorem deleteRide_absent (id : string) (p : Page) (recs : list RideRecord) :
  rides p = map ride_json recs ->
  (forall x, In x recs -> ride_id x <> id) ->
  exists p', deleteRide id p = Ok p' /\ rides p' = rides p.
Proof.
  intros Hrides Habs. rewrite (deleteRide_filters id p recs Hrides).
  rewrite (filter_keeps_others id recs Habs).
  eexists. split; [reflexivity|]. now rewrite rides_setRides, Hrides.
Qed.

Lemma filter_result_throws {A} (keep : A -> result bool) (l : list A)
  (x : A) (e : exn) :
  In x l -> keep x = Throw e -> exists e', filter_result keep l = Throw e'.
Proof.
  intros Hin Hx. induction l as [|y l IH]; [contradiction|].
  cbn [filter_result]. destruct (keep y) as [b|e'] eqn:Ey; cbn [bind].
  - destruct Hin as [-> | Hin]; [congruence|].
    destruct (IH Hin) as [e' ->]. cbn [bind]. eauto.
  - eauto.
Qed.

(** X9. [deleteRide] raises a TypeError, and changes nothing, as soon as the
    list holds a [null]: the callback reads [r.id] of every element. *)
Theorem deleteRide_null (id : string) (p : Page) :
  In JNull (rides p) -> exists m, deleteRide id p = Throw (TypeError m).
Proof.
  intros Hin. unfold deleteRide.
  assert (H : exists m, filter_result (id_differs id) (rides p)
                        = Throw (TypeError m)).
  { induction (rides p) as [|y l IH]; [contradiction|].
    cbn [filter_result].
    destruct y as [| | | | |fields]; cbn [id_differs bind]; eauto;
      destruct Hin as [Hy | Hin]; try discriminate Hy;
      destruct (IH Hin) as [m ->]; cbn [bind]; eauto. }
  destruct H as [m ->]. cbn [bind]. eauto.
Qed.

(** X10. [importRides] does nothing when no file was chosen, and for a file
    whose text is not JSON it shows "Invalid JSON: " followed by the
    parser's message and leaves the rides and the cookie as they were. *)
Theorem importRides_bad_file (p : Page) :
  importRides None p = Ok p
  /\ forall text x, JSON_parse text = Throw x ->
       exists p', importRides (Some text) p = Ok p'
                  /\ rides p' = rides p /\ document p' = document p
                  /\ alerts p'
                     = (alerts p ++ [("Invalid JSON: " ++ exn_message x)%string])%list.
Proof.
  split; [reflexivity|]. intros text x Hx.
  rewrite (importRides_parse_error text p x Hx).
  eexists. repeat split.
Qed.


(** ** The store *)

(** X12. [loadDatasets] never raises.  It returns [null] when storage cannot
    be used, when nothing is stored under the key, when the stored text is
    empty and when the stored text does not parse. *)
Theorem loadDatasets_swallows (ls : LocalStorage) :
  (exists v, loadDatasets ls = Ok v)
  /\ (storage_access ls = false
      \/ lookup_cookie DATA_KEY (items ls) = None
      \/ lookup_cookie DATA_KEY (items ls) = Some ""
      \/ (exists text x, lookup_cookie DATA_KEY (items ls) = Some text
                         /\ JSON_parse text = Throw x) ->
      loadDatasets ls = Ok JNull).
Proof.
  split; [apply loadDatasets_never_raises|].
  unfold loadDatasets, getItem.
  destruct (storage_access ls); cbn [bind try_catch]; [|reflexivity].
  intros [H | [H | [H | (text & x & H & Hx)]]]; try discriminate;
    rewrite H; cbn [try_catch]; try reflexivity.
  destruct (text =? "")%string; [reflexivity|]. now rewrite Hx.
Qed.

(** X13. What [saveDatasets] stored is what [loadDatasets] returns: after a
    save that did not raise, whatever was stored before, loading gives the
    saved value (where parsing undoes serialising it). *)
Theorem save_then_load (ds : json) (ls ls' : LocalStorage) :
  saveDatasets ds ls = Ok ls' ->
  JSON_stringify ds <> "" ->
  JSON_parse (JSON_stringify ds) = Ok ds ->
  loadDatasets ls' = Ok ds.
Proof.
  unfold saveDatasets, setItem. intros Hsave Hne Hparse.
  destruct (storage_access ls); [|discriminate].
  destruct (quota ls <? usage _)%nat; [discriminate|].
  injection Hsave as <-. unfold loadDatasets, getItem.
  cbn [storage_access items bind]. rewrite lookup_upsert.
  apply String.eqb_neq in Hne. now rewrite Hne, Hparse.
Qed.

(** X14. [getDatasets] returns a stored snapshot as it parses, and writes
    nothing, when the parsed value is truthy. *)
Theorem getDatasets_stored (ls : LocalStorage) (text : string) (v : json) :
  storage_access ls = true ->
  lookup_cookie DATA_KEY (items ls) = Some text ->
  text <> "" ->
  JSON_parse text = Ok v ->
  truthy v = true ->
  getDatasets ls = Ok (v, ls).
Proof.
  intros Hacc Hlook Hne Hparse Htruthy.
  unfold getDatasets, loadDatasets, getItem.
  rewrite Hacc. cbn [bind]. rewrite Hlook.
  apply String.eqb_neq in Hne. rewrite Hne, Hparse. cbn [try_catch bind].
  now rewrite Htruthy.
Qed.

(** X15. When nothing usable is stored (what [loadDatasets] returns is
    falsy: nothing, or [null], [false], [0] or the empty string) and storage
    takes the write, [getDatasets] returns the seed and stores it; the next
    [getDatasets] returns the seed again without writing (where parsing
    undoes serialising the seed). *)
Theorem getDatasets_seeds (ls : LocalStorage) (v : json) :
  let seed := snapshot_json seed_datasets in
  storage_access ls = true ->
  loadDatasets ls = Ok v ->
  truthy v = false ->
  (usage (upsert_cookie DATA_KEY (JSON_stringify seed) (items ls))
   <= quota ls)%nat ->
  exists ls',
    getDatasets ls = Ok (seed, ls')
    /\ lookup_cookie DATA_KEY (items ls') = Some (JSON_stringify seed)
    /\ (JSON_stringify seed <> "" ->
        JSON_parse (JSON_stringify seed) = Ok seed ->
        getDatasets ls' = Ok (seed, ls')).
Proof.
  intros seed Hacc Hload Hfalsy Hroom.
  unfold getDatasets. rewrite Hload. cbn [bind]. rewrite Hfalsy.
  unfold prefillDatasets, saveDatasets, setItem. rewrite Hacc. fold seed.
  destruct (Nat.ltb_spec (quota ls)
              (usage (upsert_cookie DATA_KEY (JSON_stringify seed) (items ls))));
    [lia|].
  cbn [bind]. eexists. split; [reflexivity|].
  cbn [items]. split; [apply lookup_upsert|].
  intros Hne Hparse. unfold loadDatasets, getItem.
  cbn [storage_access items bind]. rewrite lookup_upsert.
  apply String.eqb_neq in Hne. rewrite Hne, Hparse. cbn [try_catch bind].
  reflexivity.
Qed.

(* ================================================================== *)
(** * More theorems: what the pages list                               *)
(* ================================================================== *)

(** X16. [RecentRidesMini] shows the last eight rides, the newest first:
    all of them in reverse order when there are at most eight. *)
Theorem lastTen_newest_first {A} (rides : list A) :
  lastTen rides = rev (skipn (List.length rides - 8) rides)
  /\ List.length (lastTen rides) = Nat.min 8 (List.length rides)
  /\ ((List.length rides <= 8)%nat -> lastTen rides = rev rides).
Proof.
  unfold lastTen. split; [apply firstn_rev|]. split.
  - now rewrite length_firstn, length_rev.
  - intros H. apply firstn_all2. now rewrite length_rev.
Qed.

Lemma filter_partition {A} (f : A -> bool) (l : list A) :
  Permutation (filter (fun x => negb (f x)) l ++ filter f l) l.
Proof.
  induction l as [|x l IH]; simpl; [constructor|].
  destruct (f x); simpl.
  - apply Permutation_sym, Permutation_cons_app, Permutation_sym, IH.
  - now constructor.
Qed.

Lemma shown_cases (ridden : bool) :
  shown false false ridden = true /\ shown true true ridden = false
  /\ shown true false ridden = negb ridden /\ shown false true ridden = ridden.
Proof. destruct ridden; repeat split. Qed.

Lemma filter_ext_bool {A} (f g : A -> bool) (l : list A) :
  (forall x, f x = g x) -> filter f l = filter g l.
Proof.
  intros H. induction l as [|x l IH]; simpl; [reflexivity|].
  now rewrite H, IH.
Qed.

Lemma filter_all {A} (l : list A) : filter (fun _ => true) l = l.
Proof. induction l as [|x l IH]; simpl; [reflexivity | now rewrite IH]. Qed.

Lemma filter_none {A} (l : list A) : filter (fun _ => false) l = [].
Proof. induction l as [|x l IH]; simpl; [reflexivity | exact IH]. Qed.

(** X17. The lists of [RideManager]: with no box ticked every model and
    every line is listed; with both boxes ticked none is; and the list
    under "hide ridden" and the list under "hide un-ridden" split the table
    between them, each entry in exactly one of the two. *)
Theorem RideManager_lists (datasets : Snapshot)
  (riddenModels riddenLines : list (option json)) :
  filteredModels false false datasets riddenModels = rollingStock datasets
  /\ filteredLines false false datasets riddenLines = lines datasets
  /\ filteredModels true true datasets riddenModels = []
  /\ filteredLines true true datasets riddenLines = []
  /\ Permutation (filteredModels true false datasets riddenModels
                  ++ filteredModels false true datasets riddenModels)
       (rollingStock datasets)
  /\ Permutation (filteredLines true false datasets riddenLines
                  ++ filteredLines false true datasets riddenLines)
       (lines datasets).
Proof.
  unfold filteredModels, filteredLines. repeat split.
  - rewrite <- (filter_all (rollingStock datasets)) at 2.
    apply filter_ext_bool. intros s. apply shown_cases.
  - rewrite <- (filter_all (lines datasets)) at 2.
    apply filter_ext_bool. intros s. apply shown_cases.
  - rewrite <- (filter_none (rollingStock datasets)).
    apply filter_ext_bool. intros s. apply shown_cases.
  - rewrite <- (filter_none (lines datasets)).
    apply filter_ext_bool. intros s. apply shown_cases.
  - erewrite (filter_ext_bool _ (fun s => negb (has_string riddenModels (model s)))),
      (filter_ext_bool (fun s => shown false true _)
         (fun s => has_string riddenModels (model s)));
      [apply (filter_partition (fun s => has_string riddenModels (model s)))
      | intros; apply shown_cases | intros; apply shown_cases].
  - erewrite (filter_ext_bool _ (fun l => negb (has_string riddenLines (line_id l)))),
      (filter_ext_bool (fun l => shown false true _)
         (fun l => has_string riddenLines (line_id l)));
      [apply (filter_partition (fun l => has_string riddenLines (line_id l)))
      | intros; apply shown_cases | intros; apply shown_cases].
Qed.

(** X18. An entry counts as ridden exactly when some ride is an object
    whose field (model, or line) is the entry's name as a string; and the
    set cannot be built, the render raising a TypeError, when the list of
    rides holds a [null]. *)
Theorem ridden_set_members (k : string) (rides : list json) :
  (In JNull rides -> exists m, ridden_set k rides = Throw (TypeError m))
  /\ forall members, ridden_set k rides = Ok members ->
       forall s, has_string members s = true
                 <-> exists fields, In (JObj fields) rides
                                    /\ get_field k fields = Some (JStr s).
Proof.
  unfold ridden_set. induction rides as [|r rides [IHnull IHmem]].
  - split; [intros [] |]. intros members H. injection H as <-.
    intros s. split; [discriminate | intros (f & [] & _)].
  - split.
    + intros Hin. cbn [map_result].
      destruct r as [| | | | |fields]; cbn [field_of bind]; eauto;
        destruct Hin as [Hr | Hin]; try discriminate Hr;
        destruct (IHnull Hin) as [m ->]; cbn [bind]; eauto.
    + intros members H s. cbn [map_result] in H.
      destruct (field_of k r) as [y|x] eqn:Ey; [|discriminate].
      cbn [bind] in H.
      destruct (map_result (field_of k) rides) as [ys|x]; [|discriminate].
      cbn [bind] in H. injection H as <-.
      specialize (IHmem ys eq_refl s). cbn [has_string existsb].
      fold (has_string ys s). rewrite orb_true_iff, IHmem. split.
      * intros [Hy | (f & Hin & Hf)].
        -- destruct y as [[| | |t| |]|]; try discriminate.
           apply String.eqb_eq in Hy. subst t.
           destruct r as [| | | | |fields]; try discriminate.
           exists fields. split; [now left|]. cbn in Ey. congruence.
        -- exists f. split; [now right | exact Hf].
      * intros (f & [Hr | Hin] & Hf).
        -- left. subst r. cbn in Ey. rewrite Hf in Ey. injection Ey as <-.
           apply String.eqb_refl.
        -- right. exists f. now split.
Qed.

(** ** The table of rides and its filter *)

Lemma includes_empty (s : string) : includes s "" = true.
Proof. destruct s; reflexivity. Qed.

(** X19. With the empty query (where lower-casing the empty string gives the
    empty string) the table lists every ride record, in order. *)
Theorem filtered_empty_query (toLowerCase : string -> string)
  (recs : list RideRecord) :
  toLowerCase "" = "" ->
  filtered toLowerCase "" (map ride_json recs) = Ok (map ride_json recs).
Proof.
  intros Hlow. unfold filtered.
  induction recs as [|r recs IH]; [reflexivity|].
  cbn [map filter_result].
  assert (Hm : matches_query toLowerCase "" (ride_json r) = Ok true).
  { unfold matches_query, lower_includes. rewrite Hlow. cbn [ride_json field_of].
    cbn. now rewrite includes_empty. }
  rewrite Hm. cbn [bind]. rewrite IH. reflexivity.
Qed.

(** X20. A ride whose [trainNumber] is a number, as a hand-written import
    file may have it, makes the filter of the table raise: the callback
    calls [toLowerCase] on it. *)
Theorem filtered_number_raises (toLowerCase : string -> string)
  (query : string) (rides : list json) (fields : list (string * json)) (z : Z) :
  In (JObj fields) rides ->
  get_field "trainNumber" fields = Some (JNum z) ->
  exists e, filtered toLowerCase query rides = Throw e.
Proof.
  intros Hin Hf. unfold filtered.
  apply (filter_result_throws _ rides (JObj fields)
           (TypeError "r.trainNumber?.toLowerCase is not a function"));
    [exact Hin|].
  unfold matches_query, lower_includes. cbn [field_of bind]. now rewrite Hf.
Qed.

(* ================================================================== *)
(** * More theorems: what the edit handlers build                      *)
(* ================================================================== *)

Lemma nth_error_ext (h ext : heap) (i : nat) (c : cell) :
  nth_error h i = Some c -> nth_error (h ++ ext)%list i = Some c.
Proof.
  intros H. rewrite nth_error_app1; [exact H|].
  apply nth_error_Some. congruence.
Qed.

Lemma nth_error_end (h ext : heap) (c : cell) :
  nth_error (h ++ c :: ext)%list (List.length h) = Some c.
Proof.
  rewrite nth_error_app2 by lia. now rewrite Nat.sub_diag.
Qed.

Lemma update_nth_end (h ext : heap) (c c' : cell) :
  update_nth (List.length h) c' (h ++ c :: ext)%list = (h ++ c' :: ext)%list.
Proof.
  rewrite update_nth_app_r by lia. now rewrite Nat.sub_diag.
Qed.

Lemma get_assoc_set_assoc (k : string) (x : value) (props : list (string * value)) :
  get_assoc k (set_assoc k x props) = x.
Proof.
  induction props as [|[k' v] props IH]; simpl.
  - now rewrite String.eqb_refl.
  - destruct (k' =? k)%string eqn:E; simpl.
    + now rewrite String.eqb_refl.
    + now rewrite E.
Qed.

Lemma get_assoc_set_other (k k' : string) (x : value)
  (props : list (string * value)) :
  k' <> k -> get_assoc k' (set_assoc k x props) = get_assoc k' props.
Proof.
  intros Hne. induction props as [|[k0 v] props IH]; simpl.
  - apply String.eqb_neq in Hne. rewrite String.eqb_sym in Hne. now rewrite Hne.
  - destruct (k0 =? k)%string eqn:E; simpl.
    + apply String.eqb_eq in E. subst k0.
      apply String.eqb_neq in Hne. rewrite String.eqb_sym in Hne.
      now rewrite Hne.
    + destruct (k0 =? k')%string; [reflexivity | exact IH].
Qed.

(** Dropping the index [idx] drops exactly that element. *)
Lemma filteri_drop {A} (idx k : nat) (l : list A) :
  filteri (fun i => negb (Nat.eqb i (k + idx))) k l
  = (firstn idx l ++ skipn (S idx) l)%list.
Proof.
  revert idx k. induction l as [|x l IH]; intros idx k.
  - now destruct idx.
  - cbn [filteri]. destruct idx as [|idx].
    + rewrite Nat.add_0_r, Nat.eqb_refl. cbn [negb firstn skipn app].
      clear IH. assert (H : forall m, (k < m)%nat ->
                  filteri (fun i => negb (Nat.eqb i k)) m l = l).
      { induction l as [|y l IHl]; intros m Hm; [reflexivity|].
        cbn [filteri]. destruct (Nat.eqb_spec m k); [lia|].
        cbn [negb]. f_equal. apply IHl. lia. }
      apply H. lia.
    + destruct (Nat.eqb_spec k (k + S idx)); [lia|]. cbn [negb firstn skipn app].
      f_equal. replace (k + S idx)%nat with (S k + idx)%nat by lia. apply IH.
Qed.

Lemma drop_past_end {A} (idx : nat) (l : list A) :
  (List.length l <= idx)%nat -> (firstn idx l ++ skipn (S idx) l)%list = l.
Proof.
  intros H. rewrite firstn_all2 by exact H.
  rewrite skipn_all2 by lia. apply app_nil_r.
Qed.

(** X21. [removeStock] and [removeLine] build a snapshot object whose
    array is the old array without the element at [idx], the other
    elements being the same entry objects in the same order, and whose
    other property is shared with the old snapshot; with [idx] past the end
    every element is kept. *)
Theorem remove_drops_one (h : heap) (l a idx : nat)
  (props : list (string * value)) (olds : list value) :
  nth_error h l = Some (CObject props) ->
  nth_error h a = Some (CArray olds) ->
  let kept := (firstn idx olds ++ skipn (S idx) olds)%list in
  let built k :=
    Ok (VRef (List.length h),
        (h ++ [CObject (set_assoc k (VRef (S (List.length h))) props);
               CArray kept])%list) in
  (get_assoc "rollingStock" props = VRef a ->
   removeStock idx (VRef l) h = built "rollingStock")
  /\ (get_assoc "lines" props = VRef a ->
      removeLine idx (VRef l) h = built "lines")
  /\ ((List.length olds <= idx)%nat -> kept = olds).
Proof.
  intros Hl Ha kept built.
  assert (Hrun : forall k,
    get_assoc k props = VRef a ->
    (let* next := copy_object (VRef l) in
     let* arr0 := get_prop k (VRef l) in
     let* es := elems_of arr0 in
     let* arr := alloc (CArray (filteri (fun i => negb (Nat.eqb i idx)) 0 es)) in
     let* _ := put_prop next k arr in
     hret next) h = built k).
  { intros k Hk. unfold built, kept, hbind, copy_object, props_of, alloc, hbind.
    rewrite Hl. unfold get_prop.
    rewrite (nth_error_ext h _ l _ Hl), Hk. unfold elems_of.
    rewrite (nth_error_ext h _ a _ Ha).
    unfold put_prop. rewrite <- app_assoc. cbn [app].
    rewrite nth_error_end, update_nth_end. unfold hret.
    rewrite length_app. cbn [List.length].
    replace (List.length h + 1)%nat with (S (List.length h)) by lia.
    pose proof (filteri_drop idx 0 olds) as Hdrop. cbn [Nat.add] in Hdrop.
    rewrite Hdrop. reflexivity. }
  split; [exact (Hrun "rollingStock")|].
  split; [exact (Hrun "lines")|].
  apply drop_past_end.
Qed.

(** X22. [addRange] with an index past the end of the table raises a
    TypeError: it reads [ranges] of an entry that is not there. *)
Theorem addRange_out_of_range (h : heap) (l a idx : nat)
  (props : list (string * value)) (olds : list value) :
  nth_error h l = Some (CObject props) ->
  get_assoc "rollingStock" props = VRef a ->
  nth_error h a = Some (CArray olds) ->
  (List.length olds <= idx)%nat ->
  addRange idx (VRef l) h = Throw (type_error "ranges").
Proof.
  intros Hl Hk Ha Hidx.
  unfold addRange, hbind, copy_object, props_of, alloc, hbind.
  rewrite Hl. unfold get_prop at 1.
  rewrite nth_error_end, Hk. unfold index.
  rewrite (nth_error_ext h _ a _ Ha), (nth_overflow olds VUndef Hidx).
  reflexivity.
Qed.

(** X23. For every snapshot laid out on the heap and every index of an
    entry, [addRange] assigns the [ranges] of the entry object that the old
    snapshot refers to: after the call that object holds a new array, so
    the heap is not the old heap with new objects after it. *)
Theorem addRange_writes_shared_entry (h : heap) (l a e r idx : nat)
  (props eprops : list (string * value)) (olds rs : list value) :
  nth_error h l = Some (CObject props) ->
  get_assoc "rollingStock" props = VRef a ->
  nth_error h a = Some (CArray olds) ->
  nth_error olds idx = Some (VRef e) ->
  nth_error h e = Some (CObject eprops) ->
  get_assoc "ranges" eprops = VRef r ->
  nth_error h r = Some (CArray rs) ->
  exists h',
    addRange idx (VRef l) h = Ok (VRef (List.length h), h')
    /\ nth_error h' e
       = Some (CObject (set_assoc "ranges" (VRef (List.length h + 2)%nat) eprops))
    /\ nth_error h' (List.length h + 2)%nat
       = Some (CArray (rs ++ [VRef (List.length h + 1)%nat])%list)
    /\ ~ extends h h'.
Proof.
  intros Hl Hk Ha Hidx He Hr Hrs.
  assert (He_lt : (e < List.length h)%nat) by (apply nth_error_Some; congruence).
  assert (Hr_lt : (r < List.length h)%nat) by (apply nth_error_Some; congruence).
  set (h3 := (h ++ [CObject props; CArray [VNum (Int 0); VNum (Int 0)];
                    CArray (rs ++ [VRef (List.length h + 1)%nat])%list])%list).
  set (entry' := CObject (set_assoc "ranges" (VRef (List.length h + 2)%nat) eprops)).
  assert (Hrun : addRange idx (VRef l) h
                 = Ok (VRef (List.length h), update_nth e entry' h3)).
  { unfold addRange, hbind, copy_object, props_of, alloc, hbind.
    rewrite Hl. unfold get_prop at 1. rewrite nth_error_end, Hk.
    unfold index. rewrite (nth_error_ext h _ a _ Ha).
    rewrite (nth_error_nth olds idx VUndef Hidx).
    unfold get_prop. rewrite (nth_error_ext h _ e _ He), Hr.
    unfold elems_of. rewrite (nth_error_ext h _ r _ Hrs).
    unfold put_prop. rewrite <- !app_assoc. cbn [app].
    rewrite (nth_error_ext h _ e _ He). unfold hret.
    rewrite !length_app. cbn [List.length].
    replace (List.length h + 1 + 1)%nat with (List.length h + 2)%nat by lia.
    reflexivity. }
  assert (Hat : forall (g : heap) i c c', nth_error g i = Some c ->
                  nth_error (update_nth i c' g) i = Some c').
  { intros g. induction g as [|y g IH]; intros [|i] c c' H;
      try discriminate; [reflexivity | exact (IH i c c' H)]. }
  assert (Hother : forall (g : heap) i j c', i <> j ->
                     nth_error (update_nth i c' g) j = nth_error g j).
  { intros g. induction g as [|y g IH]; intros [|i] [|j] c' H;
      try reflexivity; try contradiction. cbn. apply IH. congruence. }
  exists (update_nth e entry' h3). split; [exact Hrun|]. split; [|split].
  - apply (Hat h3 e (CObject eprops)). unfold h3. now apply nth_error_ext.
  - rewrite Hother by lia. unfold h3.
    rewrite nth_error_app2 by lia.
    replace (List.length h + 2 - List.length h)%nat with 2%nat by lia.
    reflexivity.
  - intros [ext Hext].
    assert (Hsame : nth_error (update_nth e entry' h3) e = Some (CObject eprops)).
    { rewrite Hext. now apply nth_error_ext. }
    rewrite (Hat h3 e (CObject eprops)) in Hsame
      by (unfold h3; now apply nth_error_ext).
    unfold entry' in Hsame. injection Hsame as Hsame.
    assert (Hget : get_assoc "ranges"
                     (set_assoc "ranges" (VRef (List.length h + 2)%nat) eprops)
                   = VRef r) by (rewrite Hsame; exact Hr).
    rewrite get_assoc_set_assoc in Hget. injection Hget as Hget. lia.
Qed.

(** What [map] with a callback that touches only the index [idx] builds. *)
Lemma mapi_H_untouched {A} (f : nat -> A -> H A) (idx k : nat) (l : list A)
  (g : heap) :
  (forall i s, i <> idx -> f i s = hret s) ->
  (idx < k \/ k + List.length l <= idx)%nat ->
  mapi_H f k l g = Ok (l, g).
Proof.
  intros Hf. revert k g. induction l as [|x l IH]; intros k g Hk; [reflexivity|].
  cbn [mapi_H]. unfold hbind. rewrite (Hf k x) by (cbn in Hk; lia).
  unfold hret at 1. rewrite IH by (cbn in Hk; lia). reflexivity.
Qed.

Lemma mapi_H_one {A} (f : nat -> A -> H A) (idx k j : nat) (l : list A)
  (s y : A) (g g' : heap) :
  (forall i s, i <> idx -> f i s = hret s) ->
  idx = (k + j)%nat ->
  nth_error l j = Some s ->
  f idx s g = Ok (y, g') ->
  mapi_H f k l g = Ok ((firstn j l ++ y :: skipn (S j) l)%list, g').
Proof.
  intros Hf. revert k j g. induction l as [|x l IH]; intros k j g Hidx Hj Hrun.
  - destruct j; discriminate.
  - cbn [mapi_H]. unfold hbind. destruct j as [|j].
    + injection Hj as ->. rewrite Nat.add_0_r in Hidx. subst idx.
      rewrite Hrun. rewrite (mapi_H_untouched f k (S k) l g' Hf) by lia.
      reflexivity.
    + rewrite (Hf k x) by lia. unfold hret at 1.
      rewrite (IH (S k) j g) by (try lia; assumption). reflexivity.
Qed.

(** X24. [updateStock] builds a snapshot whose table has, at [idx], a new
    object that is the old entry with the one field set, and everywhere
    else the old entry objects themselves; the old entry is not written.
    With [idx] past the end the table has the old entries only. *)
Theorem updateStock_builds (h : heap) (l a idx : nat) (field : string)
  (x : value) (props : list (string * value)) (olds : list value) :
  nth_error h l = Some (CObject props) ->
  get_assoc "rollingStock" props = VRef a ->
  nth_error h a = Some (CArray olds) ->
  let n := List.length h in
  (forall (e : nat) (eprops : list (string * value)),
     nth_error olds idx = Some (VRef e) ->
     nth_error h e = Some (CObject eprops) ->
     updateStock idx field x (VRef l) h
     = Ok (VRef n,
           (h ++ [CObject (set_assoc "rollingStock" (VRef (n + 2)%nat) props);
                  CObject (set_assoc field x eprops);
                  CArray (firstn idx olds ++ VRef (n + 1)%nat :: skipn (S idx) olds)])%list))
  /\ ((List.length olds <= idx)%nat ->
      updateStock idx field x (VRef l) h
      = Ok (VRef n,
            (h ++ [CObject (set_assoc "rollingStock" (VRef (n + 1)%nat) props);
                   CArray olds])%list)).
Proof.
  intros Hl Hk Ha n.
  set (f := fun (i : nat) (s : value) =>
              if Nat.eqb i idx then spread_with s field x else hret s).
  assert (Hf : forall i s, i <> idx -> f i s = hret s).
  { intros i s Hi. unfold f. destruct (Nat.eqb_spec i idx); [contradiction|].
    reflexivity. }
  split.
  - intros e eprops Hidx He.
    unfold updateStock, hbind, copy_object, props_of, alloc, hbind.
    rewrite Hl. unfold get_prop. rewrite (nth_error_ext h _ l _ Hl), Hk.
    unfold elems_of. rewrite (nth_error_ext h _ a _ Ha).
    fold f.
    rewrite (mapi_H_one f idx 0 idx olds (VRef e)
               (VRef (List.length (h ++ [CObject props])%list))
               (h ++ [CObject props])%list
               ((h ++ [CObject props]) ++ [CObject (set_assoc field x eprops)])%list
               Hf eq_refl Hidx).
    2:{ unfold f. rewrite Nat.eqb_refl.
        unfold spread_with, hbind, props_of, alloc.
        now rewrite (nth_error_ext h _ e _ He). }
    unfold put_prop. rewrite <- !app_assoc. cbn [app].
    rewrite nth_error_end, update_nth_end. unfold hret.
    rewrite !length_app. cbn [List.length]. fold n.
    replace (n + 1 + 1)%nat with (n + 2)%nat by lia. reflexivity.
  - intros Hidx.
    unfold updateStock, hbind, copy_object, props_of, alloc, hbind.
    rewrite Hl. unfold get_prop. rewrite (nth_error_ext h _ l _ Hl), Hk.
    unfold elems_of. rewrite (nth_error_ext h _ a _ Ha).
    fold f. rewrite (mapi_H_untouched f idx 0 olds _ Hf) by lia.
    unfold put_prop. rewrite <- !app_assoc. cbn [app].
    rewrite nth_error_end, update_nth_end. unfold hret.
    rewrite !length_app. cbn [List.length]. fold n. reflexivity.
Qed.

(* ================================================================== *)
(** * More theorems: white space around a train number                 *)
(* ================================================================== *)

Lemma trimStart_fixed (s : string) : lead_ws s = false -> trimStart s = s.
Proof.
  destruct s as [|a [|b [|c r3]]]; cbn [lead_ws trimStart]; try reflexivity.
  - rewrite orb_false_r. now intros ->.
  - rewrite !orb_false_r. intros H. apply orb_false_iff in H as [-> ->].
    reflexivity.
  - intros H. apply orb_false_iff in H as [-> H].
    apply orb_false_iff in H as [-> ->]. reflexivity.
Qed.

Lemma lead_ws_trimStart_fuel (n : nat) (s : string) :
  (String.length s <= n)%nat -> lead_ws (trimStart s) = false.
Proof.
  revert s. induction n as [|n IH]; intros s Hn.
  - destruct s; [reflexivity | cbn in Hn; lia].
  - destruct s as [|a r1]; [reflexivity|]. cbn [String.length] in Hn.
    cbn [trimStart]. destruct (ws1 a) eqn:E1; [apply IH; lia|].
    destruct r1 as [|b r2].
    { cbn [lead_ws]. now rewrite E1. }
    cbn [String.length] in Hn.
    destruct (ws2 a b) eqn:E2; [apply IH; lia|].
    destruct r2 as [|c r3].
    { cbn [lead_ws]. now rewrite E1, E2. }
    cbn [String.length] in Hn.
    destruct (ws3 a b c) eqn:E3; [apply IH; lia|].
    cbn [lead_ws]. now rewrite E1, E2, E3.
Qed.

Lemma lead_ws_trimStart (s : string) : lead_ws (trimStart s) = false.
Proof. exact (lead_ws_trimStart_fuel (String.length s) s (Nat.le_refl _)). Qed.

(** A non-empty prefix of a string that does not start with white space
    does not start with white space. *)
Lemma lead_ws_prefix (a : ascii) (p w : string) :
  lead_ws (String a p ++ w) = false -> lead_ws (String a p) = false.
Proof.
  destruct p as [|b [|c r3]]; cbn [append lead_ws].
  - intros H. apply orb_false_iff in H as [-> _]. reflexivity.
  - intros H. apply orb_false_iff in H as [-> H]. cbn [orb].
    destruct w; apply orb_false_iff in H as [-> _]; reflexivity.
  - now intros ->.
Qed.

Lemma ws_led_app (w v : string) :
  ws_led w = true -> ws_led v = true -> v <> "" -> ws_led (w ++ v) = true.
Proof. destruct w; cbn; [now intros _ ? _ | now intros ? _ _]. Qed.

Lemma ws_byte_facts (a b c : ascii) :
  (ws1 a = true -> ws_byte a = true)
  /\ (ws2 a b = true -> ws_byte a = true)
  /\ (ws3 a b c = true -> ws_byte a = true).
Proof.
  unfold ws_byte, ws2, ws3. cbv zeta. split; [intros ->; reflexivity|].
  split; intros H.
  - apply andb_true_iff in H as [-> _]. now rewrite orb_true_r.
  - destruct (byte_of a =? 225) eqn:E225; [now rewrite !orb_true_r|].
    destruct (byte_of a =? 226) eqn:E226; [now rewrite !orb_true_r|].
    destruct (byte_of a =? 227) eqn:E227; [now rewrite !orb_true_r|].
    destruct (byte_of a =? 239) eqn:E239; [now rewrite !orb_true_r|].
    cbn in H. discriminate H.
Qed.

(** What [trimEnd] removes is empty or starts with a white-space byte. *)
Lemma trimStart_rev_split_fuel (n : nat) (u : string) :
  (String.length u <= n)%nat ->
  exists w, reverse u = (reverse (trimStart_rev u) ++ w)%string
            /\ ws_led w = true.
Proof.
  revert u. induction n as [|n IH]; intros u Hn.
  - destruct u; [|cbn in Hn; lia]. exists EmptyString. now split.
  - assert (Hkeep : exists w, reverse u = (reverse u ++ w)%string
                              /\ ws_led w = true).
    { exists EmptyString. now rewrite append_empty_r. }
    destruct u as [|c r1]; [exact Hkeep|]. cbn [String.length] in Hn.
    cbn [trimStart_rev]. destruct (ws1 c) eqn:E1.
    { destruct (IH r1) as (w & Hw & Hled); [lia|].
      exists (w ++ String c "")%string. split.
      - now rewrite reverse_cons, Hw, append_assoc.
      - apply ws_led_app; [exact Hled | | discriminate].
        cbn [ws_led]. exact (proj1 (ws_byte_facts c c c) E1). }
    destruct r1 as [|b r2]; [exact Hkeep|]. cbn [String.length] in Hn.
    destruct (ws2 b c) eqn:E2.
    { destruct (IH r2) as (w & Hw & Hled); [lia|].
      exists (w ++ String b (String c ""))%string. split.
      - rewrite !reverse_cons, Hw, !append_assoc. reflexivity.
      - apply ws_led_app; [exact Hled | | discriminate].
        cbn [ws_led]. exact (proj1 (proj2 (ws_byte_facts b c c)) E2). }
    destruct r2 as [|a r3]; [exact Hkeep|]. cbn [String.length] in Hn.
    destruct (ws3 a b c) eqn:E3; [|exact Hkeep].
    destruct (IH r3) as (w & Hw & Hled); [lia|].
    exists (w ++ String a (String b (String c "")))%string. split.
    + rewrite !reverse_cons, Hw, !append_assoc. reflexivity.
    + apply ws_led_app; [exact Hled | | discriminate].
      cbn [ws_led]. exact (proj2 (proj2 (ws_byte_facts a b c)) E3).
Qed.

Lemma trimEnd_split (t : string) :
  exists w, t = (trimEnd t ++ w)%string /\ ws_led w = true.
Proof.
  destruct (trimStart_rev_split_fuel (String.length (reverse t)) (reverse t)
              (Nat.le_refl _)) as (w & Hw & Hled).
  exists w. split; [|exact Hled]. rewrite reverse_involutive in Hw. exact Hw.
Qed.

(** [parseInt] by cases on the first character after the white space. *)
Lemma parseInt_cases (s : string) :
  parseInt s
  = match trimStart s with
    | EmptyString => NaN
    | String a r =>
        if Ascii.eqb a "-" then body_value (-1) r
        else if Ascii.eqb a "+" then body_value 1 r
        else body_value 1 (String a r)
    end.
Proof.
  unfold parseInt. destruct (trimStart s) as [|a r]; [reflexivity|].
  destruct a as [[] [] [] [] [] [] [] []]; reflexivity.
Qed.

Lemma ws_byte_not_number (a : ascii) :
  ws_byte a = true ->
  digit_of a = None /\ Ascii.eqb a "-" = false /\ Ascii.eqb a "+" = false.
Proof.
  destruct a as [[] [] [] [] [] [] [] []]; vm_compute; intros H;
    try discriminate H; repeat split.
Qed.

Lemma digits_value_ws (b w : string) (acc : Z) :
  ws_led w = true -> digits_value acc (b ++ w) = digits_value acc b.
Proof.
  intros Hw. revert acc. induction b as [|c b IH]; intros acc.
  - destruct w as [|x r]; [reflexivity|]. cbn in *.
    now destruct (ws_byte_not_number x Hw) as (-> & _).
  - cbn. destruct (digit_of c); [apply IH | reflexivity].
Qed.

Lemma body_value_ws (sign : Z) (b w : string) :
  ws_led w = true -> body_value sign (b ++ w) = body_value sign b.
Proof.
  intros Hw. destruct b as [|c b].
  - destruct w as [|x r]; [reflexivity|]. cbn in *.
    now destruct (ws_byte_not_number x Hw) as (-> & _).
  - unfold body_value. cbn [append]. destruct (digit_of c); [|reflexivity].
    change (String c (b ++ w)) with (String c b ++ w)%string.
    now rewrite digits_value_ws.
Qed.

(** [parseInt] reads the same number with and without the white space
    around it. *)
Lemma parseInt_trim (s : string) : parseInt (trim s) = parseInt s.
Proof.
  unfold trim. rewrite !parseInt_cases.
  pose proof (lead_ws_trimStart s) as Ht.
  destruct (trimEnd_split (trimStart s)) as (w & Hsplit & Hled).
  set (p := trimEnd (trimStart s)) in *.
  rewrite Hsplit in Ht. rewrite Hsplit. clearbody p.
  destruct p as [|a p].
  - cbn [append trimStart] in *.
    destruct w as [|x r]; [reflexivity|]. cbn in Hled.
    destruct (ws_byte_not_number x Hled) as (Hd & -> & ->).
    unfold body_value. now rewrite Hd.
  - rewrite (trimStart_fixed _ (lead_ws_prefix a p w Ht)).
    cbn [append]. destruct (Ascii.eqb a "-"); [now rewrite body_value_ws|].
    destruct (Ascii.eqb a "+"); [now rewrite body_value_ws|].
    change (String a (p ++ w)) with (String a p ++ w)%string.
    now rewrite body_value_ws.
Qed.

(** X25. White space around a train number does not change its class: the
    number as typed, which [handleDetect] classifies, and the trimmed number,
    which it stores in the ride, give the same result. *)
Theorem detect_ignores_white_space (trainNumber : string)
  (selectedLine : option LineEntry) (datasets : Snapshot) (uuid now : string) :
  (forall T, detectModelFromNumber (trim trainNumber) T
             = detectModelFromNumber trainNumber T)
  /\ forall r,
       handleDetect trainNumber selectedLine datasets uuid now = Some r ->
       ride_trainNumber r = trim trainNumber
       /\ detectModelFromNumber (ride_trainNumber r) (rollingStock datasets)
          = detectModelFromNumber trainNumber (rollingStock datasets).
Proof.
  assert (Hsame : forall T, detectModelFromNumber (trim trainNumber) T
                            = detectModelFromNumber trainNumber T).
  { intros T. unfold detectModelFromNumber. now rewrite parseInt_trim. }
  split; [exact Hsame|]. intros r. unfold handleDetect.
  destruct (trainNumber =? "")%string; [discriminate|].
  destruct selectedLine as [l|]; [|discriminate].
  intros H. injection H as <-. cbn [ride_trainNumber]. split; [reflexivity|].
  apply Hsame.
Qed.

End Facts.

(* ================================================================== *)
(** * The theorems at concrete values                                  *)
(* ================================================================== *)

(** Scenarios A and B of the specification. *)
Example scenario_A :
  detectModelFromNumber "4210" Ref.R211A_table = Some (mkDetected "R211A" "B").
Proof. reflexivity. Qed.

Example scenario_B : detectModelFromNumber "9999" Ref.R211A_table = None.
Proof. reflexivity. Qed.

(** Both ends of a range match; one below and one above do not. *)
Example range_boundaries :
  detectModelFromNumber "4000" Ref.R211A_table = Some (mkDetected "R211A" "B")
  /\ detectModelFromNumber "4399" Ref.R211A_table = Some (mkDetected "R211A" "B")
  /\ detectModelFromNumber "3999" Ref.R211A_table = None
  /\ detectModelFromNumber "4400" Ref.R211A_table = None.
Proof. repeat split. Qed.

(** [parseInt] reads the digits at the front and ignores what follows. *)
Example parseInt_reads_prefix :
  parseInt "4210abc" = Int 4210 /\ parseInt " 42" = Int 42
  /\ parseInt "abc" = NaN /\ parseInt "" = NaN /\ parseInt "-7" = Int (-7).
Proof. repeat split. Qed.

(** From 2^53 on [parseInt] rounds to the nearest double, and extremely
    long runs of digits give an infinity. *)
Example parseInt_rounds :
  parseInt "9007199254740993" = Int 9007199254740992
  /\ parseInt "9007199254740995" = Int 9007199254740996
  /\ parseInt "-9007199254740993" = Int (-9007199254740992)
  /\ to_double (2 ^ 1024) = Infinity false
  /\ to_double (- 2 ^ 1024) = Infinity true.
Proof. repeat split; vm_compute; reflexivity. Qed.

(** [String(n)] on numbers small and large. *)
Example to_string_samples :
  to_string (Int 34560000) = "34560000"
  /\ to_string (Int (-4210)) = "-4210"
  /\ to_string (Int (2 ^ 64)) = "18446744073709552000"
  /\ to_string (Int (10 ^ 21)) = "1e+21"
  /\ to_string (Int (2 ^ 70)) = "1.1805916207174113e+21"
  /\ parseInt (to_string (Int (10 ^ 21))) = Int 1.
Proof. repeat split; vm_compute; reflexivity. Qed.

Lemma detect_returns_first_match_witness :
  let big := [mkStock "Low" [rng 1 10] "A";
              mkStock "Big" [rng 9007199254740992 9007199254740992] "B"] in
  FirstMatch (Int 4210) (rollingStock seed_datasets)
    (detectModelFromNumber "4210" (rollingStock seed_datasets))
  /\ detectModelFromNumber "4210" (rollingStock seed_datasets)
     = Some (mkDetected "R211A" "B")
  /\ FirstMatch (Int 9007199254740992) big
       (detectModelFromNumber "9007199254740993" big)
  /\ detectModelFromNumber "9007199254740993" big = Some (mkDetected "Big" "B").
Proof.
  intros big. split; [|split; [|split]].
  - apply (detect_returns_first_match "4210" (rollingStock seed_datasets)
             (Int 4210)); reflexivity.
  - reflexivity.
  - apply (detect_returns_first_match "9007199254740993" big
             (Int 9007199254740992)); vm_compute; reflexivity.
  - vm_compute. reflexivity.
Defined.

Lemma detect_unparsable_is_null_witness :
  has_digit "Unknown" = false
  /\ detectModelFromNumber "Unknown" (rollingStock seed_datasets) = None
  /\ detectModelFromNumber "" (rollingStock seed_datasets) = None.
Proof.
  split; [reflexivity|]. split.
  - apply (detect_unparsable_is_null "Unknown" (rollingStock seed_datasets)).
    right. left. reflexivity.
  - apply (detect_unparsable_is_null "" (rollingStock seed_datasets)).
    left. reflexivity.
Defined.

Lemma seed_table_disjoint : disjoint_table (rollingStock seed_datasets).
Proof. unfold disjoint_table. simpl. repeat constructor. Qed.

Lemma detect_order_independent_witness :
  let a := mkStock "Early" [rng 1 10] "A" in
  let b := mkStock "Late" [rng 5 15] "B" in
  detectModelFromNumber "1305" (rollingStock seed_datasets)
  = detectModelFromNumber "1305" (rev (rollingStock seed_datasets))
  /\ FirstMatch (Int 7) [a; b] (detectModelFromNumber "7" [a; b])
  /\ detectModelFromNumber "7" [a; b] = Some (mkDetected "Early" "A")
  /\ FirstMatch (Int 7) [b; a] (detectModelFromNumber "7" [b; a])
  /\ detectModelFromNumber "7" [b; a] = Some (mkDetected "Late" "B").
Proof.
  intros a b. split; [|split; [|split; [|split]]].
  - apply (proj1 (detect_order_independent "1305" (rollingStock seed_datasets)
                    (rev (rollingStock seed_datasets)))).
    + apply Permutation_rev.
    + exact seed_table_disjoint.
  - apply (proj2 (detect_order_independent "7" [a; b] [b; a]) (Int 7));
      reflexivity.
  - reflexivity.
  - apply (proj2 (detect_order_independent "7" [b; a] [a; b]) (Int 7));
      reflexivity.
  - reflexivity.
Defined.

Lemma detect_total_skips_inverted_witness :
  let T := [mkStock "Backwards" [rng 20 10] "A"; mkStock "R62" [rng 10 20] "A"] in
  contains (Int 15) (rng 20 10) = false
  /\ detectModelFromNumber "15" T = Some (mkDetected "R62" "A").
Proof.
  intros T.
  destruct (detect_total_skips_inverted "15" T) as (_ & Hinv & Hskip).
  split.
  - apply Hinv. reflexivity.
  - rewrite <- Hskip. reflexivity.
Defined.

(** ** The ledger on the reference engine *)


Lemma persist_then_load_witness :
  exists d', Ref.write Ref.two_rides Ref.document0 = Ok d'
             /\ Ref.read d' = Ok Ref.two_rides.
Proof.
  apply (persist_then_load (engine := Ref.engine) Ref.two_rides Ref.document0
           (Ref.encode (Ref.stringify (JArr Ref.two_rides))));
    try (vm_compute; reflexivity).
  apply Nat.leb_le. vm_compute. reflexivity.
Defined.

Lemma load_never_raises_witness :
  Ref.read Ref.document0 = Ok []
  /\ Ref.read Ref.undecodable = Ok []
  /\ Ref.read Ref.unparsable = Ok []
  /\ Ref.read Ref.holds_object = Ok [].
Proof.
  split; [|split; [|split]].
  - apply (load_never_raises (engine := Ref.engine) Ref.document0).
    left. reflexivity.
  - apply (load_never_raises (engine := Ref.engine) Ref.undecodable).
    right. left. eexists. eexists. split; reflexivity.
  - apply (load_never_raises (engine := Ref.engine) Ref.unparsable).
    right. right. left. eexists. eexists. eexists.
    split; [reflexivity|]. split; reflexivity.
  - apply (load_never_raises (engine := Ref.engine) Ref.holds_object).
    right. right. right. eexists. eexists. eexists.
    split; [reflexivity|]. split; [reflexivity|]. split; reflexivity.
Defined.



Example import_replaces_ledger :
  exists p', Ref.import (Some "[1, 2]") Ref.stats_page = Ok p'
             /\ rides p' = [JNum 1; JNum 2]
             /\ Ref.read (document p') = Ok [JNum 1; JNum 2].
Proof. eexists. repeat split. Qed.

(** Scenario D: from a ledger of two rides, deleting the first leaves a
    ledger that loads as the second only. *)
Lemma deleteRide_removes_the_record_witness :
  Ref.read (document Ref.mounted_page) = Ok Ref.two_rides
  /\ exists p', Ref.delete (ride_id Ref.ride1) Ref.mounted_page = Ok p'
                /\ rides p' = [ride_json Ref.ride2]
                /\ mounted p' = true
                /\ Ref.read (document p') = Ok [ride_json Ref.ride2].
Proof.
  split; [vm_compute; reflexivity|].
  destruct (deleteRide_removes_the_record (engine := Ref.engine)
              Ref.mounted_page [] [Ref.ride2] Ref.ride1)
    as (p' & Hdelete & Hrides & Hup & Hread).
  - vm_compute. reflexivity.
  - intros x [<- | []]. discriminate.
  - exists p'. split; [exact Hdelete|]. split; [exact Hrides|].
    split; [exact Hup|].
    apply (Hread (Ref.encode (Ref.stringify (JArr [ride_json Ref.ride2]))));
      try (vm_compute; reflexivity).
    apply Nat.leb_le. vm_compute. reflexivity.
Defined.

(** Scenario D: after the deletion the cookie reads as the second ride. *)
Example scenario_D :
  exists p', Ref.delete (ride_id Ref.ride1) Ref.stats_page = Ok p'
             /\ Ref.read (document p') = Ok [ride_json Ref.ride2].
Proof. eexists. split; vm_compute; reflexivity. Qed.

(** Scenario C: two rides added to an empty ledger read back in order. *)
Example scenario_C :
  let p0 := mkPage [] Ref.document0 [] "" true in
  Ref.read (document (Ref.add (ride_json Ref.ride2)
                        (Ref.add (ride_json Ref.ride1) p0)))
  = Ok Ref.two_rides.
Proof. vm_compute. reflexivity. Qed.

(** With two rides under one identifier, the deletion removes both. *)
Example deleteRide_duplicates :
  let twice := mkPage (map ride_json [Ref.ride1; Ref.ride2; Ref.ride1])
                 Ref.document0 [] "" true in
  exists p', Ref.delete (ride_id Ref.ride1) twice = Ok p'
             /\ rides p' = [ride_json Ref.ride2].
Proof. eexists. split; reflexivity. Qed.

(** The other storage functions do swallow a failure. *)
Example siblings_swallow :
  loadDatasets (engine := Ref.engine) storage_disabled = Ok JNull
  /\ Ref.write Ref.two_rides (mkDocument [] false) = Ok (mkDocument [] false)
  /\ Ref.read (mkDocument [] false) = Ok [].
Proof. repeat split. Qed.

(** The handlers that copy, on the sample snapshot: the old reference reads
    as before. *)
Example updateStock_keeps_sample :
  exists next h',
    updateStock 0 "model" (VStr "R62A") sample_datasets sample_heap
    = Ok (next, h')
    /\ read 5 h' sample_datasets = Some (sample_tree [range_tree 1301 1390])
    /\ read 5 h' next
       = Some (TObj [("rollingStock",
                      TArr [TObj [("model", TStr "R62A");
                                  ("ranges", TArr [range_tree 1301 1390]);
                                  ("division", TStr "A")]]);
                     ("lines", TArr [])]).
Proof. eexists. eexists. repeat split. Qed.

(** ** Train numbers and tables *)

Lemma detect_ignores_suffix_witness :
  detectModelFromNumber "4210abc" Ref.R211A_table
  = detectModelFromNumber "4210" Ref.R211A_table.
Proof.
  apply (detect_ignores_suffix "4210" "abc" Ref.R211A_table);
    [discriminate | reflexivity | reflexivity].
Defined.

Lemma parseInt_to_string_witness :
  parseInt (to_string (Int 4210)) = Int 4210
  /\ FirstMatch (Int 4210) Ref.R211A_table
       (detectModelFromNumber (to_string (Int 4210)) Ref.R211A_table)
  /\ parseInt (to_string (Int (-9007199254740991))) = Int (-9007199254740991).
Proof.
  split; [|split].
  - apply (parseInt_to_string 4210). reflexivity.
  - apply (proj2 (parseInt_to_string 4210 eq_refl)).
  - apply (parseInt_to_string (-9007199254740991)). reflexivity.
Defined.

(** ** Logging a ride *)

Lemma handleDetect_ride_witness :
  let l := mkLine "A" "A" "B" "#2850AD" ("Inwood", "Far Rockaway") in
  exists r,
    handleDetect "99999" (Some l) seed_datasets "u-1" "2025-01-01T12:00:00.000Z"
    = Some r
    /\ ride_model r = "Unknown" /\ ride_division r = "?".
Proof.
  intros l. eexists. split; [reflexivity|].
  destruct (proj2 (handleDetect_ride "99999" (Some l) seed_datasets "u-1"
                     "2025-01-01T12:00:00.000Z") _ eq_refl)
    as (_ & _ & Hunknown & _).
  apply Hunknown. reflexivity.
Defined.

Lemma detect_ignores_white_space_witness :
  let l := mkLine "A" "A" "B" "#2850AD" ("Inwood", "Far Rockaway") in
  exists r,
    handleDetect " 1305 " (Some l) seed_datasets "u-2" "2025-01-02T08:30:00.000Z"
    = Some r
    /\ ride_trainNumber r = "1305"
    /\ detectModelFromNumber (ride_trainNumber r) (rollingStock seed_datasets)
       = detectModelFromNumber " 1305 " (rollingStock seed_datasets).
Proof.
  intros l. eexists. split; [reflexivity|].
  exact (proj2 (detect_ignores_white_space " 1305 " (Some l) seed_datasets "u-2"
                  "2025-01-02T08:30:00.000Z") _ eq_refl).
Defined.

Lemma writeRidesToCookie_swallows_witness :
  Ref.write Ref.two_rides (mkDocument [] false) = Ok (mkDocument [] false).
Proof.
  apply (proj2 (writeRidesToCookie_swallows (engine := Ref.engine)
                  Ref.two_rides (mkDocument [] false))).
  left. reflexivity.
Defined.

Lemma onAddRide_overwrites_witness :
  let p := mkPage [ride_json Ref.ride1] Ref.document0 [] "" true in
  rides (Ref.add (ride_json Ref.ride2) p) = Ref.two_rides
  /\ Ref.read (document (Ref.add (ride_json Ref.ride2) p)) = Ok Ref.two_rides.
Proof.
  intros p.
  apply (onAddRide_overwrites (engine := Ref.engine) (ride_json Ref.ride2) p
           (Ref.encode (Ref.stringify (JArr Ref.two_rides))));
    try (vm_compute; reflexivity).
  apply Nat.leb_le. vm_compute. reflexivity.
Defined.

Lemma clearRides_confirmed_witness :
  Ref.read (document (clearRides (engine := Ref.engine) true Ref.stats_page))
  = Ok [].
Proof.
  apply (proj2 (proj2 (clearRides_confirmed (engine := Ref.engine)
                         Ref.stats_page (Ref.encode (Ref.stringify (JArr []))))));
    try (vm_compute; reflexivity).
  apply Nat.leb_le. vm_compute. reflexivity.
Defined.

Lemma deleteRide_absent_witness :
  exists p', Ref.delete "33333333-3333-4333-8333-333333333333" Ref.stats_page
             = Ok p'
             /\ rides p' = rides Ref.stats_page.
Proof.
  apply (deleteRide_absent (engine := Ref.engine)
           "33333333-3333-4333-8333-333333333333" Ref.stats_page
           [Ref.ride1; Ref.ride2]).
  - reflexivity.
  - intros x [<- | [<- | []]]; discriminate.
Defined.

Lemma deleteRide_null_witness :
  exists m, Ref.delete (ride_id Ref.ride1)
              (mkPage [ride_json Ref.ride1; JNull] Ref.document0 [] "" true)
            = Throw (TypeError m).
Proof.
  apply (deleteRide_null (engine := Ref.engine)).
  right. left. reflexivity.
Defined.

Lemma importRides_bad_file_witness :
  exists p', Ref.import (Some "oops") Ref.stats_page = Ok p'
             /\ rides p' = Ref.two_rides
             /\ document p' = Ref.document0
             /\ alerts p' = ["Invalid JSON: Unexpected token"].
Proof.
  exact (proj2 (importRides_bad_file (engine := Ref.engine) Ref.stats_page)
           "oops" (SyntaxError "Unexpected token") eq_refl).
Defined.


(** ** The store *)

Lemma loadDatasets_swallows_witness :
  loadDatasets (engine := Ref.engine) storage_disabled = Ok JNull
  /\ loadDatasets (engine := Ref.engine)
       (mkStorage [(DATA_KEY, "{oops")] true 5000) = Ok JNull.
Proof.
  split.
  - apply (proj2 (loadDatasets_swallows (engine := Ref.engine) storage_disabled)).
    left. reflexivity.
  - apply (proj2 (loadDatasets_swallows (engine := Ref.engine)
                    (mkStorage [(DATA_KEY, "{oops")] true 5000))).
    right. right. right. eexists. eexists. split; reflexivity.
Defined.

Lemma save_then_load_witness :
  let ds := snapshot_json seed_datasets in
  let ls := mkStorage [(DATA_KEY, "null")] true 5000 in
  exists ls', saveDatasets (engine := Ref.engine) ds ls = Ok ls'
              /\ loadDatasets (engine := Ref.engine) ls' = Ok ds.
Proof.
  intros ds ls. eexists. split; [reflexivity|].
  apply (save_then_load (engine := Ref.engine) ds ls _ eq_refl).
  - discriminate.
  - vm_compute. reflexivity.
Defined.

Lemma getDatasets_stored_witness :
  let ls := mkStorage [(DATA_KEY, "{}")] true 5000 in
  getDatasets (engine := Ref.engine) ls = Ok (JObj [], ls).
Proof.
  intros ls.
  apply (getDatasets_stored (engine := Ref.engine) ls "{}" (JObj []));
    [reflexivity | reflexivity | discriminate | reflexivity | reflexivity].
Defined.

Lemma getDatasets_seeds_witness :
  let ls := mkStorage [(DATA_KEY, "null")] true 5000 in
  exists ls', getDatasets (engine := Ref.engine) ls
              = Ok (snapshot_json seed_datasets, ls')
              /\ getDatasets (engine := Ref.engine) ls'
                 = Ok (snapshot_json seed_datasets, ls').
Proof.
  intros ls.
  destruct (getDatasets_seeds (engine := Ref.engine) ls JNull)
    as (ls' & Hfirst & _ & Hnext).
  - reflexivity.
  - reflexivity.
  - reflexivity.
  - apply Nat.leb_le. vm_compute. reflexivity.
  - exists ls'. split; [exact Hfirst|].
    apply Hnext; [discriminate | vm_compute; reflexivity].
Defined.

(** ** Lists of the pages *)

Lemma lastTen_newest_first_witness :
  lastTen Ref.two_rides = rev Ref.two_rides.
Proof.
  apply (proj2 (proj2 (lastTen_newest_first Ref.two_rides))).
  apply Nat.leb_le. reflexivity.
Defined.

Lemma ridden_set_members_witness :
  (exists m, ridden_set "model" [ride_json Ref.ride1; JNull]
             = Throw (TypeError m))
  /\ (has_string [Some (JStr "R211A"); Some (JStr "R62")] "R62" = true
      <-> exists fields, In (JObj fields) Ref.two_rides
                         /\ get_field "model" fields = Some (JStr "R62")).
Proof.
  split.
  - apply (proj1 (ridden_set_members "model" [ride_json Ref.ride1; JNull])).
    right. left. reflexivity.
  - apply (proj2 (ridden_set_members "model" Ref.two_rides)
             [Some (JStr "R211A"); Some (JStr "R62")]).
    reflexivity.
Defined.

Lemma filtered_empty_query_witness :
  filtered lowercase "" Ref.two_rides = Ok Ref.two_rides.
Proof.
  apply (filtered_empty_query lowercase [Ref.ride1; Ref.ride2]). reflexivity.
Defined.

Lemma filtered_number_raises_witness :
  exists e, filtered lowercase "42"
              [ride_json Ref.ride1; JObj [("trainNumber", JNum 4210)]]
            = Throw e.
Proof.
  apply (filtered_number_raises lowercase "42" _
           [("trainNumber", JNum 4210)] 4210).
  - right. left. reflexivity.
  - reflexivity.
Defined.

(** ** The edit handlers on the sample snapshot *)

Lemma remove_drops_one_witness :
  removeStock 0 sample_datasets sample_heap
  = Ok (VRef 6%nat,
        (sample_heap ++ [CObject [("rollingStock", VRef 7%nat);
                                  ("lines", VRef 4%nat)];
                         CArray []])%list)
  /\ removeStock 3 sample_datasets sample_heap
     = Ok (VRef 6%nat,
           (sample_heap ++ [CObject [("rollingStock", VRef 7%nat);
                                     ("lines", VRef 4%nat)];
                            CArray [VRef 2%nat]])%list).
Proof.
  split.
  - apply (proj1 (remove_drops_one sample_heap 5 3 0
                    [("rollingStock", VRef 3%nat); ("lines", VRef 4%nat)]
                    [VRef 2%nat] eq_refl eq_refl)).
    reflexivity.
  - apply (proj1 (remove_drops_one sample_heap 5 3 3
                    [("rollingStock", VRef 3%nat); ("lines", VRef 4%nat)]
                    [VRef 2%nat] eq_refl eq_refl)).
    reflexivity.
Defined.

Lemma addRange_out_of_range_witness :
  addRange 1 sample_datasets sample_heap = Throw (type_error "ranges").
Proof.
  apply (addRange_out_of_range sample_heap 5 3 1
           [("rollingStock", VRef 3%nat); ("lines", VRef 4%nat)] [VRef 2%nat]);
    [reflexivity | reflexivity | reflexivity | apply Nat.leb_le; reflexivity].
Defined.

Lemma addRange_writes_shared_entry_witness :
  exists h',
    addRange 0 sample_datasets sample_heap = Ok (VRef 6%nat, h')
    /\ nth_error h' 2%nat
       = Some (CObject [("model", VStr "R62"); ("ranges", VRef 8%nat);
                        ("division", VStr "A")])
    /\ nth_error h' 8%nat = Some (CArray [VRef 0%nat; VRef 7%nat])
    /\ ~ extends sample_heap h'.
Proof.
  apply (addRange_writes_shared_entry sample_heap 5 3 2 1 0
           [("rollingStock", VRef 3%nat); ("lines", VRef 4%nat)]
           [("model", VStr "R62"); ("ranges", VRef 1%nat); ("division", VStr "A")]
           [VRef 2%nat] [VRef 0%nat]); reflexivity.
Defined.

Lemma updateStock_builds_witness :
  updateStock 0 "model" (VStr "R62A") sample_datasets sample_heap
  = Ok (VRef 6%nat,
        (sample_heap
         ++ [CObject [("rollingStock", VRef 8%nat); ("lines", VRef 4%nat)];
             CObject [("model", VStr "R62A"); ("ranges", VRef 1%nat);
                      ("division", VStr "A")];
             CArray [VRef 7%nat]])%list).
Proof.
  apply (proj1 (updateStock_builds sample_heap 5 3 0 "model" (VStr "R62A")
                  [("rollingStock", VRef 3%nat); ("lines", VRef 4%nat)]
                  [VRef 2%nat] eq_refl eq_refl eq_refl) 2%nat
           [("model", VStr "R62"); ("ranges", VRef 1%nat); ("division", VStr "A")]);
    reflexivity.
Defined.
